(** * Synexa JavaScript client: the wait coordinator, [run] and [FileOutput]

    A shallow embedding of [src/index.ts] and [src/file-output.ts].

    The client is asynchronous, effectful TypeScript.  Its effects are
    - HTTP requests through the axios instance ([post], [get]),
    - timers ([setTimeout]),
    - reads of [signal.aborted],
    - calls of the caller's [progress] callback,
    - [fetch] and the mutable field [blob_] of a [FileOutput].

    The first four are modelled by explicit state passing over a [World]:
    the transport is a script of answers consumed one per request, time is
    a counter of completed suspension points, and everything the client
    does to the outside is appended to a trace.  A JavaScript [throw] is
    the outcome [Threw]; a promise that never settles (the script has no
    answer left) is the outcome [Pending].  A [FileOutput] is a record
    passed along with the log of the [fetch] calls made so far.

    JavaScript numbers are taken as integers, and strings as sequences of
    bytes: the separators '/' and ':' and the prefix 'http' are ASCII, so
    splitting and prefix tests agree with those on UTF-16 code units. *)

From Stdlib Require Import String Ascii List ZArith Bool Lia.
Import ListNotations.
Open Scope string_scope.

(** ** JavaScript values *)

(** [any]: the JSON payloads the client only passes through. *)
#[local] Unset Elimination Schemes.
Inductive Json : Type :=
| JNull
| JBool (b : bool)
| JNumber (literal : string)
| JString (s : string)
| JArray (items : list Json)
| JObject (fields : list (string * Json)).
#[local] Set Elimination Schemes.

(** [Record<string, any>] *)
Definition JsRecord : Type := list (string * Json).

(** A thrown value, with what the [catch] blocks of the client look at:
    [error instanceof Error], [axios.isAxiosError(error)], [error.name]
    and [error.message]. *)
Record Thrown : Type := mkThrown {
  instanceofError : bool;
  isAxiosError : bool;
  name : string;
  message : string
}.

(** [new Error(msg)] *)
Definition new_Error (msg : string) : Thrown :=
  {| instanceofError := true; isAxiosError := false;
     name := "Error"; message := msg |}.

(** The [TypeError] the engine raises when a property of [undefined] is
    read. *)
Definition new_TypeError (msg : string) : Thrown :=
  {| instanceofError := true; isAxiosError := false;
     name := "TypeError"; message := msg |}.

(** [`${x}`] for [x : string | null]. *)
Definition template_of_nullable (x : option string) : string :=
  match x with
  | Some s => s
  | None => "null"
  end.

(** [`${x}`] for a destructured element, [undefined] when missing. *)
Definition template_of_optional (x : option string) : string :=
  match x with
  | Some s => s
  | None => "undefined"
  end.

(** [x || d] for [x : number | undefined]: [undefined] and [0] are falsy. *)
Definition or_default (x : option Z) (d : Z) : Z :=
  match x with
  | None => d
  | Some n => if Z.eqb n 0 then d else n
  end.

(** ** The interfaces of [index.ts] *)

Inductive WaitType : Type := poll | block.

Inductive WebhookEvent : Type := start | output_event | logs_event | completed.

Module WaitOptions.
Record t : Type := mk {
  type : option WaitType;
  interval : option Z;
  timeout : option Z
}.
(** The default argument [options: WaitOptions = {}]. *)
Definition empty : t := {| type := None; interval := None; timeout := None |}.
End WaitOptions.

Module PredictionInput.
Record t : Type := mk {
  model : string;
  input : JsRecord;
  webhook : option string;
  webhook_events_filter : option (list WebhookEvent)
}.
End PredictionInput.

Module PredictionResponse.
Record t : Type := mk {
  id : string;
  model : string;
  version : option string;
  input : JsRecord;
  logs : option string;
  output : option (list string);
  error : option string;
  status : string;
  created_at : string;
  started_at : option string;
  completed_at : option string;
  metrics : option JsRecord
}.
End PredictionResponse.

Abbreviation PredictionResponse := PredictionResponse.t.
Abbreviation PredictionInput := PredictionInput.t.
Abbreviation WaitOptions := WaitOptions.t.

(** [AbortSignal]: the value of [signal.aborted] as a function of the
    number of suspension points (timers, requests) completed so far. *)
Definition AbortSignal : Type := nat -> bool.

(** ** The world outside the client *)

Inductive Event : Type :=
| EvPost (url : string) (body : PredictionInput)
| EvGet (url : string)
| EvPostWait (url : string) (timeout : Z) (signal_passed : bool)
| EvSleep (ms : Z)
| EvProgress (prediction : PredictionResponse).

(** What a request settles with: a thrown value or [response.data]. *)
Definition Answer : Type := (Thrown + PredictionResponse)%type.

Record World : Type := mkWorld {
  answers : list Answer;
  clock : nat;
  trace : list Event
}.

Definition is_network_call (e : Event) : bool :=
  match e with
  | EvPost _ _ | EvGet _ | EvPostWait _ _ _ => true
  | EvSleep _ | EvProgress _ => false
  end.

Definition network_calls (t : list Event) : list Event :=
  filter is_network_call t.

Definition progress_calls (t : list Event) : list PredictionResponse :=
  flat_map (fun e => match e with EvProgress p => [p] | _ => [] end) t.

(** ** The monad of asynchronous computations *)

Inductive Outcome (A : Type) : Type :=
| Returned (a : A)
| Threw (e : Thrown)
| Pending.
Arguments Returned {A} a.
Arguments Threw {A} e.
Arguments Pending {A}.

Definition Async (A : Type) : Type := World -> Outcome A * World.

Definition ret {A} (a : A) : Async A := fun w => (Returned a, w).

Definition throw {A} (e : Thrown) : Async A := fun w => (Threw e, w).

Definition bind {A B} (m : Async A) (k : A -> Async B) : Async B :=
  fun w =>
    match m w with
    | (Returned a, w') => k a w'
    | (Threw e, w') => (Threw e, w')
    | (Pending, w') => (Pending, w')
    end.

(** [try { m } catch (error) { handler }] *)
Definition try_catch {A} (m : Async A) (handler : Thrown -> Async A) : Async A :=
  fun w =>
    match m w with
    | (Threw e, w') => handler e w'
    | r => r
    end.

Declare Scope async_scope.
Delimit Scope async_scope with async.
Notation "x <- m ;; k" := (bind m (fun x => k))
  (at level 61, m at next level, right associativity) : async_scope.
Notation "m ;;; k" := (bind m (fun _ => k))
  (at level 61, right associativity) : async_scope.
Open Scope async_scope.

Definition log (e : Event) (w : World) : World :=
  {| answers := answers w; clock := clock w; trace := trace w ++ [e] |}.

(** One HTTP request: it is recorded, consumes the next answer of the
    script and completes one suspension point.  With no answer left the
    request stays in flight. *)
Definition after_request (e : Event) (rest : list Answer) (w : World) : World :=
  {| answers := rest; clock := S (clock w); trace := trace w ++ [e] |}.

Definition request (e : Event) : Async PredictionResponse :=
  fun w =>
    match answers w with
    | [] => (Pending, log e w)
    | a :: rest =>
        match a with
        | inl err => (Threw err, after_request e rest w)
        | inr data => (Returned data, after_request e rest w)
        end
    end.

(** [await new Promise(resolve => setTimeout(resolve, ms))] *)
Definition sleep (ms : Z) : Async unit :=
  fun w => (Returned tt,
            {| answers := answers w; clock := S (clock w);
               trace := trace w ++ [EvSleep ms] |}).

(** [signal?.aborted] read when [t] suspension points have completed. *)
Definition aborted_at (signal : option AbortSignal) (t : nat) : bool :=
  match signal with
  | None => false
  | Some s => s t
  end.

Definition read_aborted (signal : option AbortSignal) : Async bool :=
  fun w => (Returned (aborted_at signal (clock w)), w).

(** [if (progress) { progress(p); }]: the callback is an observer that
    returns normally; [progress] says whether one was supplied, and its
    calls are recorded in the trace. *)
Definition call_progress (progress : bool) (p : PredictionResponse) : Async unit :=
  fun w => (Returned tt, if progress then log (EvProgress p) w else w).

(** ** [class Synexa] *)

Definition createPrediction (input : PredictionInput) : Async PredictionResponse :=
  try_catch
    (request (EvPost "/predictions" input))
    (fun error =>
       if isAxiosError error
       then throw (new_Error ("Failed to create prediction: " ++ message error))
       else throw error).

Definition getPrediction (id : string) : Async PredictionResponse :=
  try_catch
    (request (EvGet ("/predictions/" ++ id)))
    (fun error =>
       if isAxiosError error
       then throw (new_Error ("Failed to get prediction: " ++ message error))
       else throw error).

(** The guard of the polling loop, negated:
    [status === 'succeeded' || status === 'failed']. *)
Definition is_terminal (p : PredictionResponse) : bool :=
  (PredictionResponse.status p =? "succeeded")
  || (PredictionResponse.status p =? "failed").

Definition prediction_failed (p : PredictionResponse) : Thrown :=
  new_Error ("Prediction failed: "
             ++ template_of_nullable (PredictionResponse.error p)).

Definition prediction_cancelled : Thrown := new_Error "Prediction cancelled".

(** The [while] loop of [waitWithPolling].  Every iteration that completes
    consumes one answer of the script, so [fuel] above the length of the
    script is never used up. *)
Fixpoint poll_loop (fuel : nat) (interval : Z) (signal : option AbortSignal)
    (progress : bool) (currentPrediction : PredictionResponse)
    : Async PredictionResponse :=
  if is_terminal currentPrediction then ret currentPrediction
  else
    match fuel with
    | O => fun w => (Pending, w)
    | S fuel' =>
        aborted <- read_aborted signal ;;
        if (aborted : bool) then throw prediction_cancelled
        else
          sleep interval ;;;
          next <- getPrediction (PredictionResponse.id currentPrediction) ;;
          call_progress progress next ;;;
          poll_loop fuel' interval signal progress next
    end.

Definition waitWithPolling (prediction : PredictionResponse)
    (options : WaitOptions) (signal : option AbortSignal) (progress : bool)
    : Async PredictionResponse :=
  fun w =>
    (let interval := or_default (WaitOptions.interval options) 500 in
     currentPrediction <-
       poll_loop (S (List.length (answers w))) interval signal progress prediction ;;
     if PredictionResponse.status currentPrediction =? "failed"
     then throw (prediction_failed currentPrediction)
     else ret currentPrediction) w.

(** [this.client.post(`/predictions/${prediction.id}/wait`,
    { timeout: options.timeout || 60 }, { signal })] *)
Definition wait_request (prediction : PredictionResponse)
    (options : WaitOptions) (signal : option AbortSignal) : Event :=
  EvPostWait ("/predictions/" ++ PredictionResponse.id prediction ++ "/wait")
    (or_default (WaitOptions.timeout options) 60)
    (match signal with Some _ => true | None => false end).

Definition waitWithBlock (prediction : PredictionResponse)
    (options : WaitOptions) (signal : option AbortSignal) (progress : bool)
    : Async PredictionResponse :=
  try_catch
    (result <- request (wait_request prediction options signal) ;;
     call_progress progress result ;;;
     if PredictionResponse.status result =? "failed"
     then throw (prediction_failed result)
     else ret result)
    (fun error =>
       if instanceofError error && (name error =? "AbortError")
       then throw prediction_cancelled
       else waitWithPolling prediction options signal progress).

Definition wait (prediction : PredictionResponse) (options : WaitOptions)
    (signal : option AbortSignal) (progress : bool)
    : Async PredictionResponse :=
  let waitType :=
    match WaitOptions.type options with
    | Some t => t
    | None => block
    end in
  call_progress progress prediction ;;;
  match waitType with
  | block => waitWithBlock prediction options signal progress
  | poll => waitWithPolling prediction options signal progress
  end.

(** ** [class FileOutput] *)

(** A promise created by [fetch(url).then(res => res.blob())], identified
    by the rank of the [fetch] call that created it. *)
Definition BlobPromise : Type := nat.

Record FileOutput : Type := mkFileOutput {
  url_ : string;
  blob_ : option BlobPromise
}.

(** [new FileOutput(url)] *)
Definition new_FileOutput (url : string) : FileOutput :=
  {| url_ := url; blob_ := None |}.

(** [url()] *)
Definition url (self : FileOutput) : string := url_ self.

(** The platform [fetch]: the URLs fetched so far, in order. *)
Definition FetchLog : Type := list string.

(** [fetch(url).then(res => res.blob())]: starts one byte-fetch operation
    and hands back its promise. *)
Definition fetch_blob (url : string) (net : FetchLog) : BlobPromise * FetchLog :=
  (List.length net, (net ++ [url])%list).

(** [blob()]: the promise it hands back, the object after the call and the
    fetch log after the call.  The body has no [await], so a call runs to
    completion before any other call on the same object starts. *)
Definition blob (self : FileOutput) (net : FetchLog)
    : BlobPromise * FileOutput * FetchLog :=
  match blob_ self with
  | None =>
      let (p, net') := fetch_blob (url_ self) net in
      (p, {| url_ := url_ self; blob_ := Some p |}, net')
  | Some p => (p, self, net)
  end.

(** [n] calls of [blob()] on one object, with the promises handed back. *)
Fixpoint blob_calls (n : nat) (self : FileOutput) (net : FetchLog)
    : list BlobPromise * FileOutput * FetchLog :=
  match n with
  | O => ([], self, net)
  | S n' =>
      let '(p, self', net') := blob self net in
      let '(ps, self'', net'') := blob_calls n' self' net' in
      (p :: ps, self'', net'')
  end.

(** What awaiting a promise yields, given what each byte-fetch operation
    settles with: the bytes or the failure. *)
Definition await_blob {Blob : Type} (settle : nat -> Thrown + Blob)
    (p : BlobPromise) : Thrown + Blob :=
  settle p.

(** ** [run] *)

Module RunOptions.
Record t : Type := mk {
  input : JsRecord;
  wait : option WaitOptions;
  webhook : option string;
  webhook_events_filter : option (list WebhookEvent);
  signal : option AbortSignal;
  progress : bool
}.
End RunOptions.
Abbreviation RunOptions := RunOptions.t.

(** [s.split(sep)] for a separator of one character: never empty. *)
Fixpoint split (sep : ascii) (s : string) : list string :=
  match s with
  | EmptyString => [EmptyString]
  | String c rest =>
      if Ascii.eqb c sep then EmptyString :: split sep rest
      else
        match split sep rest with
        | [] => [String c EmptyString]
        | piece :: pieces => String c piece :: pieces
        end
  end.

(** The first two statements of [run]:
    [const [owner, model] = identifier.split('/')] and
    [const [name, version] = model.split(':')].
    Reading [split] off an [undefined] [model] throws a [TypeError]. *)
Definition parse_identifier (identifier : string)
    : Thrown + (option string * option string * option string) :=
  let parts := split "/" identifier in
  let owner := nth_error parts 0 in
  match nth_error parts 1 with
  | None =>
      inl (new_TypeError
             "Cannot read properties of undefined (reading 'split')")
  | Some model =>
      let pieces := split ":" model in
      inr (owner, nth_error pieces 0, nth_error pieces 1)
  end.

(** [`${owner}/${name}`] *)
Definition model_string (owner name : option string) : string :=
  template_of_optional owner ++ "/" ++ template_of_optional name.

(** [output.startsWith('http')] *)
Definition startsWith_http (output : string) : bool :=
  String.prefix "http" output.

(** The callback of [result.output.map]. *)
Definition map_output (output : string) : string + FileOutput :=
  if startsWith_http output then inr (new_FileOutput output) else inl output.

Definition no_output : Thrown :=
  new_Error "No output received from the prediction".

(** The argument of [this.createPrediction] in [run]. *)
Definition prediction_input (owner name : option string)
    (options : RunOptions) : PredictionInput :=
  {| PredictionInput.model := model_string owner name;
     PredictionInput.input := RunOptions.input options;
     PredictionInput.webhook := RunOptions.webhook options;
     PredictionInput.webhook_events_filter :=
       RunOptions.webhook_events_filter options |}.

(** [options.wait] as [wait] receives it: [undefined] selects the default
    argument [{}]. *)
Definition wait_options (options : RunOptions) : WaitOptions :=
  match RunOptions.wait options with
  | Some o => o
  | None => WaitOptions.empty
  end.

Definition run (identifier : string) (options : RunOptions)
    : Async (list (string + FileOutput)) :=
  match parse_identifier identifier with
  | inl type_error => throw type_error
  | inr (owner, name, version) =>
      prediction <- createPrediction (prediction_input owner name options) ;;
      result <-
        wait prediction (wait_options options)
          (RunOptions.signal options) (RunOptions.progress options) ;;
      match PredictionResponse.output result with
      | None => throw no_output
      | Some outputs => ret (map map_output outputs)
      end
  end.

(** [c] occurs in [s]. *)
Fixpoint contains (c : ascii) (s : string) : bool :=
  match s with
  | EmptyString => false
  | String c' rest => Ascii.eqb c' c || contains c rest
  end.

(** ** Traces of the wait coordinator *)

(** The world after [progress(p)], when a callback was supplied. *)
Definition after_progress (progress : bool) (p : PredictionResponse)
    (w : World) : World :=
  if progress then log (EvProgress p) w else w.

(** The world after one full iteration of the polling loop that fetched
    [next] for the snapshot [cur], leaving [rest] in the script. *)
Definition after_poll (interval : Z) (progress : bool)
    (cur next : PredictionResponse) (rest : list Answer) (w : World) : World :=
  {| answers := rest;
     clock := S (S (clock w));
     trace := trace w
              ++ [EvSleep interval;
                  EvGet ("/predictions/" ++ PredictionResponse.id cur)]
              ++ (if progress then [EvProgress next] else []) |}.

(** What a run of the loop that fetches [fetched] one after the other,
    starting from [cur], appends to the trace. *)
Fixpoint poll_trace (interval : Z) (progress : bool)
    (cur : PredictionResponse) (fetched : list PredictionResponse)
    : list Event :=
  match fetched with
  | [] => []
  | next :: later =>
      [EvSleep interval;
       EvGet ("/predictions/" ++ PredictionResponse.id cur)]
      ++ (if progress then [EvProgress next] else [])
      ++ poll_trace interval progress next later
  end.

(** A computation only ever appends to the trace. *)
Definition extends_trace {A : Type} (m : Async A) : Prop :=
  forall w, exists t, trace (snd (m w)) = (trace w ++ t)%list.

(** ** Scenarios *)

(** A snapshot with the fields the control flow reads; the rest is fixed. *)
Definition snapshot (id status : string) (output : option (list string))
    (error : option string) : PredictionResponse :=
  {| PredictionResponse.id := id;
     PredictionResponse.model := "owner/name";
     PredictionResponse.version := None;
     PredictionResponse.input := [("prompt", JString "x")];
     PredictionResponse.logs := None;
     PredictionResponse.output := output;
     PredictionResponse.error := error;
     PredictionResponse.status := status;
     PredictionResponse.created_at := "2024-01-01T00:00:00Z";
     PredictionResponse.started_at := None;
     PredictionResponse.completed_at := None;
     PredictionResponse.metrics := None |}.

(** A world in which nothing has happened yet, with a script of answers. *)
Definition fresh_world (script : list Answer) : World :=
  {| answers := script; clock := 0; trace := [] |}.

Definition poll_options (ms : Z) : WaitOptions :=
  {| WaitOptions.type := Some poll;
     WaitOptions.interval := Some ms;
     WaitOptions.timeout := None |}.

Definition run_options (wait : option WaitOptions)
    (signal : option AbortSignal) (progress : bool) : RunOptions :=
  {| RunOptions.input := [("prompt", JString "x")];
     RunOptions.wait := wait;
     RunOptions.webhook := None;
     RunOptions.webhook_events_filter := None;
     RunOptions.signal := signal;
     RunOptions.progress := progress |}.

(** A token that is aborted from the start. *)
Definition already_aborted : AbortSignal := fun _ => true.

(** A transport failure as axios reports it. *)
Definition network_error : Thrown :=
  {| instanceofError := true; isAxiosError := true;
     name := "AxiosError"; message := "Network Error" |}.


(** The handle of a job the server has only just accepted, and the
    snapshots a server reports for it later. *)
Definition starting_handle : PredictionResponse :=
  snapshot "p1" "starting" None None.

Definition processing_snapshot : PredictionResponse :=
  snapshot "p1" "processing" None None.

Definition failed_boom : PredictionResponse :=
  snapshot "p1" "failed" None (Some "boom").

Definition succeeded_hello : PredictionResponse :=
  snapshot "p1" "succeeded" (Some ["hello"]) None.

(** ** Further notions for the properties of the whole client *)

(** What the [catch] of [getPrediction] throws for a caught [error]. *)
Definition getPrediction_error (error : Thrown) : Thrown :=
  if isAxiosError error
  then new_Error ("Failed to get prediction: " ++ message error)
  else error.

(** What the [catch] of [createPrediction] throws for a caught [error]. *)
Definition createPrediction_error (error : Thrown) : Thrown :=
  if isAxiosError error
  then new_Error ("Failed to create prediction: " ++ message error)
  else error.

(** Every event a computation appends to the trace satisfies [P]. *)
Definition appends_only {A : Type} (P : Event -> Prop) (m : Async A) : Prop :=
  forall w, exists t, trace (snd (m w)) = (trace w ++ t)%list /\ Forall P t.

Definition is_progress_call (e : Event) : bool :=
  match e with
  | EvProgress _ => true
  | _ => false
  end.

Definition is_submission (e : Event) : bool :=
  match e with
  | EvPost _ _ => true
  | _ => false
  end.

Definition is_blocking_request (e : Event) : bool :=
  match e with
  | EvPostWait _ _ _ => true
  | _ => false
  end.

(** The rejections in a script of answers. *)
Definition rejections (script : list Answer) : list Thrown :=
  flat_map (fun a => match a with inl err => [err] | inr _ => [] end) script.

(** A rejection of an aborted request under another name than
    [AbortError]. *)
Definition canceled_error : Thrown :=
  {| instanceofError := true; isAxiosError := true;
     name := "CanceledError"; message := "canceled" |}.

(** * Properties *)

(** Runs the straight-line part of a computation on a given world. *)
Ltac run_async :=
  unfold bind, read_aborted, sleep, getPrediction, createPrediction,
    try_catch, request, after_request, call_progress, throw, ret, log;
  cbn [answers clock trace fst snd].

(** ** The polling loop *)

Lemma poll_loop_eq fuel interval signal progress cur :
  poll_loop fuel interval signal progress cur =
  if is_terminal cur then ret cur
  else
    match fuel with
    | O => fun w => (Pending, w)
    | S fuel' =>
        aborted <- read_aborted signal ;;
        if (aborted : bool) then throw prediction_cancelled
        else
          sleep interval ;;;
          next <- getPrediction (PredictionResponse.id cur) ;;
          call_progress progress next ;;;
          poll_loop fuel' interval signal progress next
    end.
Proof. destruct fuel; reflexivity. Qed.

Lemma poll_loop_terminal fuel interval signal progress cur w :
  is_terminal cur = true ->
  poll_loop fuel interval signal progress cur w = (Returned cur, w).
Proof. intros H. rewrite poll_loop_eq, H. reflexivity. Qed.

Lemma poll_loop_cancelled fuel interval signal progress cur w :
  is_terminal cur = false ->
  aborted_at signal (clock w) = true ->
  poll_loop (S fuel) interval signal progress cur w
  = (Threw prediction_cancelled, w).
Proof.
  intros Hcur Hab. rewrite poll_loop_eq, Hcur.
  run_async. rewrite Hab. reflexivity.
Qed.

Lemma poll_loop_fetch fuel interval signal progress cur next rest w :
  is_terminal cur = false ->
  aborted_at signal (clock w) = false ->
  answers w = inr next :: rest ->
  poll_loop (S fuel) interval signal progress cur w
  = poll_loop fuel interval signal progress next
      (after_poll interval progress cur next rest w).
Proof.
  intros Hcur Hab Hans. rewrite (poll_loop_eq (S fuel)), Hcur.
  run_async. rewrite Hab, Hans. unfold after_poll.
  destruct progress; cbn [answers clock trace];
    rewrite <- ?app_assoc, ?app_nil_r; reflexivity.
Qed.

(** The loop never needs more fuel than the script is long. *)
Lemma poll_loop_fuel_irrelevant interval signal progress :
  forall fuel cur w,
    List.length (answers w) < fuel ->
    poll_loop fuel interval signal progress cur w
    = poll_loop (S (List.length (answers w))) interval signal progress cur w.
Proof.
  induction fuel as [|fuel IH]; intros cur w Hlen; [lia|].
  rewrite !(poll_loop_eq (S _)).
  destruct (is_terminal cur); [reflexivity|].
  run_async.
  destruct (aborted_at signal (clock w)); [reflexivity|].
  destruct (answers w) as [|[err|next] rest] eqn:Hans; [reflexivity| |].
  - destruct (isAxiosError err); reflexivity.
  - cbn [List.length] in Hlen. rewrite IH.
    + destruct progress; reflexivity.
    + destruct progress; cbn [answers]; lia.
Qed.

Lemma status_succeeded_terminal (p : PredictionResponse) :
  PredictionResponse.status p = "succeeded" ->
  is_terminal p = true /\ (PredictionResponse.status p =? "failed") = false.
Proof. intros H. unfold is_terminal. rewrite H. split; reflexivity. Qed.

Lemma status_failed_terminal (p : PredictionResponse) :
  PredictionResponse.status p = "failed" ->
  is_terminal p = true /\ (PredictionResponse.status p =? "failed") = true.
Proof. intros H. unfold is_terminal. rewrite H. split; reflexivity. Qed.

Lemma is_terminal_iff (p : PredictionResponse) :
  is_terminal p = true <->
  PredictionResponse.status p = "succeeded"
  \/ PredictionResponse.status p = "failed".
Proof.
  unfold is_terminal. rewrite orb_true_iff, !String.eqb_eq. reflexivity.
Qed.

(** ** [waitWithPolling] *)

Section Polling.

Variable options : WaitOptions.
Variable signal : option AbortSignal.
Variable progress : bool.

Let interval : Z := or_default (WaitOptions.interval options) 500.

Lemma waitWithPolling_terminal (cur : PredictionResponse) (w : World) :
  is_terminal cur = true ->
  waitWithPolling cur options signal progress w
  = (if PredictionResponse.status cur =? "failed"
     then Threw (prediction_failed cur)
     else Returned cur, w).
Proof.
  intros H. unfold waitWithPolling, bind.
  rewrite poll_loop_terminal by exact H.
  destruct (PredictionResponse.status cur =? "failed"); reflexivity.
Qed.

Lemma waitWithPolling_cancelled (cur : PredictionResponse) (w : World) :
  is_terminal cur = false ->
  aborted_at signal (clock w) = true ->
  waitWithPolling cur options signal progress w
  = (Threw prediction_cancelled, w).
Proof.
  intros Hcur Hab. unfold waitWithPolling, bind.
  rewrite poll_loop_cancelled by assumption. reflexivity.
Qed.

Lemma waitWithPolling_fetch (cur next : PredictionResponse)
    (rest : list Answer) (w : World) :
  is_terminal cur = false ->
  aborted_at signal (clock w) = false ->
  answers w = inr next :: rest ->
  waitWithPolling cur options signal progress w
  = waitWithPolling next options signal progress
      (after_poll interval progress cur next rest w).
Proof.
  intros Hcur Hab Hans. unfold waitWithPolling, bind.
  rewrite Hans. cbn [List.length].
  rewrite (poll_loop_fetch _ _ _ _ _ next rest) by assumption.
  reflexivity.
Qed.

(** The loop on a script of snapshots: it fetches up to the first terminal
    one and stops there. *)
Lemma waitWithPolling_script (final : PredictionResponse) (later : list Answer) :
  PredictionResponse.status final = "succeeded" ->
  forall (fetched : list PredictionResponse) (cur : PredictionResponse)
         (w : World),
    is_terminal cur = false ->
    Forall (fun p => is_terminal p = false) fetched ->
    (forall k, k <= List.length fetched ->
               aborted_at signal (clock w + 2 * k) = false) ->
    answers w = (map inr (fetched ++ [final]) ++ later)%list ->
    waitWithPolling cur options signal progress w
    = (Returned final,
       {| answers := later;
          clock := clock w + 2 * S (List.length fetched);
          trace := trace w
                   ++ poll_trace interval progress cur (fetched ++ [final]) |}).
Proof.
  intros Hfinal.
  destruct (status_succeeded_terminal final Hfinal) as [Hterm Hnotfailed].
  induction fetched as [|next fetched IH]; intros cur w Hcur Hall Hab Hans.
  - cbn [app map] in Hans.
    rewrite (waitWithPolling_fetch cur final later) by
      (try assumption; rewrite <- (Hab 0) by (cbn; lia); f_equal; lia).
    rewrite waitWithPolling_terminal by exact Hterm.
    rewrite Hnotfailed. unfold after_poll. cbn [poll_trace app List.length].
    rewrite app_nil_r.
    f_equal. f_equal. lia.
  - cbn [app map] in Hans.
    inversion Hall as [|? ? Hnext Hall']; subst.
    rewrite (waitWithPolling_fetch cur next
               (map inr (fetched ++ [final]) ++ later)%list) by
      (try assumption; rewrite <- (Hab 0) by (cbn; lia); f_equal; lia).
    rewrite IH; try assumption.
    + unfold after_poll. cbn [answers clock trace poll_trace app List.length].
      rewrite <- !app_assoc. f_equal. f_equal. lia.
    + intros k Hk. unfold after_poll. cbn [clock].
      rewrite <- (Hab (S k)) by (cbn; lia). f_equal. lia.
    + reflexivity.
Qed.

End Polling.

Lemma progress_calls_app (t1 t2 : list Event) :
  progress_calls (t1 ++ t2) = (progress_calls t1 ++ progress_calls t2)%list.
Proof. unfold progress_calls. apply flat_map_app. Qed.

Lemma network_calls_app (t1 t2 : list Event) :
  network_calls (t1 ++ t2) = (network_calls t1 ++ network_calls t2)%list.
Proof. unfold network_calls. apply filter_app. Qed.

Lemma progress_calls_poll_trace interval progress :
  forall fetched cur,
    progress_calls (poll_trace interval progress cur fetched)
    = if progress then fetched else [].
Proof.
  induction fetched as [|next fetched IH]; intros cur.
  - destruct progress; reflexivity.
  - cbn [poll_trace]. rewrite !progress_calls_app, IH.
    destruct progress; reflexivity.
Qed.

(** One status fetch per iteration, each for the id of the snapshot that
    was current when it was issued. *)
Lemma network_calls_poll_trace interval progress :
  forall fetched cur,
    network_calls (poll_trace interval progress cur fetched)
    = map (fun p => EvGet ("/predictions/" ++ PredictionResponse.id p))
          (removelast (cur :: fetched)).
Proof.
  induction fetched as [|next fetched IH]; intros cur.
  - reflexivity.
  - cbn [poll_trace]. rewrite !network_calls_app, IH.
    destruct progress; reflexivity.
Qed.

(** ** [wait] in poll mode *)

Lemma wait_poll (prediction : PredictionResponse) (options : WaitOptions)
    (signal : option AbortSignal) (progress : bool) (w : World) :
  WaitOptions.type options = Some poll ->
  wait prediction options signal progress w
  = waitWithPolling prediction options signal progress
      (after_progress progress prediction w).
Proof. intros Hmode. unfold wait. rewrite Hmode. reflexivity. Qed.

Lemma network_calls_after_progress progress p w :
  network_calls (trace (after_progress progress p w)) = network_calls (trace w).
Proof.
  unfold after_progress, log. destruct progress; [|reflexivity].
  cbn [trace]. rewrite network_calls_app. apply app_nil_r.
Qed.

(** C4.  A handle that is already [succeeded] or [failed] when [wait] is
    entered in poll mode causes no status fetch: the world afterwards is
    the world before plus the one initial [progress] call (when a callback
    was supplied), the script of answers is untouched, and the outcome is
    the handle itself for [succeeded] and the prediction-failed error for
    [failed].  This holds whatever the cancellation token says. *)
Theorem wait_poll_terminal_at_entry
    (prediction : PredictionResponse) (options : WaitOptions)
    (signal : option AbortSignal) (progress : bool) (w : World) :
  WaitOptions.type options = Some poll ->
  PredictionResponse.status prediction = "succeeded"
  \/ PredictionResponse.status prediction = "failed" ->
  exists outcome,
    wait prediction options signal progress w
    = (outcome, after_progress progress prediction w)
    /\ (PredictionResponse.status prediction = "succeeded" ->
        outcome = Returned prediction)
    /\ (PredictionResponse.status prediction = "failed" ->
        outcome = Threw (prediction_failed prediction))
    /\ answers (after_progress progress prediction w) = answers w
    /\ network_calls (trace (after_progress progress prediction w))
       = network_calls (trace w)
    /\ progress_calls (trace (after_progress progress prediction w))
       = (progress_calls (trace w)
          ++ if progress then [prediction] else [])%list.
Proof.
  intros Hmode Hstatus.
  rewrite wait_poll by exact Hmode.
  rewrite waitWithPolling_terminal by (apply is_terminal_iff; exact Hstatus).
  eexists. split; [reflexivity|].
  repeat split.
  - intros Hs. rewrite Hs. reflexivity.
  - intros Hf. rewrite Hf. reflexivity.
  - unfold after_progress, log. destruct progress; reflexivity.
  - apply network_calls_after_progress.
  - unfold after_progress, log. destruct progress; cbn [trace].
    + rewrite progress_calls_app. reflexivity.
    + symmetry. apply app_nil_r.
Qed.

Lemma wait_poll_terminal_at_entry_witness :
  let handle := snapshot "p1" "succeeded" (Some ["hello"]) None in
  WaitOptions.type (poll_options 10) = Some poll
  /\ PredictionResponse.status handle = "succeeded"
  /\ wait handle (poll_options 10) (Some already_aborted) true (fresh_world [])
     = (Returned handle,
        {| answers := []; clock := 0; trace := [EvProgress handle] |}).
Proof.
  intros handle. split; [reflexivity|]. split; [reflexivity|].
  destruct (wait_poll_terminal_at_entry handle (poll_options 10)
              (Some already_aborted) true (fresh_world [])
              eq_refl (or_introl eq_refl))
    as (outcome & Hrun & Hsucceeded & _).
  rewrite Hrun, (Hsucceeded eq_refl). reflexivity.
Defined.

(** C3.  Poll mode, a handle that is not terminal yet, and a server that
    answers the successive status fetches with the snapshots [fetched]
    (none of them terminal) and then with [final], whose status is
    [succeeded]; the token is not aborted at any of the loop's checks.
    Then [wait] returns exactly [final], the last snapshot fetched,
    leaving any later answers of the script unconsumed.  The trace is the
    initial [progress] call with the pre-wait snapshot, before any timer
    or request, followed for each fetched snapshot by timer, status fetch
    and one [progress] call with that snapshot: the callback sees the
    initial snapshot once and then every fetched snapshot once, in the
    order observed. *)
Theorem wait_poll_returns_last_snapshot
    (prediction final : PredictionResponse)
    (fetched : list PredictionResponse) (later : list Answer)
    (options : WaitOptions) (signal : option AbortSignal) (progress : bool)
    (w : World) :
  WaitOptions.type options = Some poll ->
  is_terminal prediction = false ->
  Forall (fun p => is_terminal p = false) fetched ->
  PredictionResponse.status final = "succeeded" ->
  (forall k, k <= List.length fetched ->
             aborted_at signal (clock w + 2 * k) = false) ->
  answers w = (map inr (fetched ++ [final]) ++ later)%list ->
  exists w',
    wait prediction options signal progress w = (Returned final, w')
    /\ answers w' = later
    /\ trace w'
       = (trace w
          ++ (if progress then [EvProgress prediction] else [])
          ++ poll_trace (or_default (WaitOptions.interval options) 500)
               progress prediction (fetched ++ [final]))%list
    /\ progress_calls (trace w')
       = (progress_calls (trace w)
          ++ if progress then prediction :: fetched ++ [final] else [])%list
    /\ network_calls (trace w')
       = (network_calls (trace w)
          ++ map (fun p => EvGet ("/predictions/" ++ PredictionResponse.id p))
               (prediction :: fetched))%list.
Proof.
  intros Hmode Hentry Hfetched Hfinal Hsignal Hscript.
  rewrite wait_poll by exact Hmode.
  rewrite (waitWithPolling_script options signal progress final later Hfinal
             fetched prediction (after_progress progress prediction w));
    try assumption.
  - eexists. split; [reflexivity|]. cbn [answers trace].
    assert (Htrace :
      trace (after_progress progress prediction w)
      = (trace w ++ if progress then [EvProgress prediction] else [])%list).
    { unfold after_progress, log. destruct progress; cbn [trace];
        [reflexivity | symmetry; apply app_nil_r]. }
    rewrite Htrace, <- !app_assoc.
    repeat split.
    + rewrite !progress_calls_app, progress_calls_poll_trace.
      destruct progress; reflexivity.
    + rewrite !network_calls_app, network_calls_poll_trace.
      replace (removelast (prediction :: fetched ++ [final]))
        with (prediction :: fetched)
        by (symmetry; apply (removelast_last (prediction :: fetched) final)).
      destruct progress; reflexivity.
  - intros k Hk. rewrite <- (Hsignal k Hk).
    unfold after_progress, log. destruct progress; reflexivity.
  - rewrite <- Hscript. unfold after_progress, log.
    destruct progress; reflexivity.
Qed.

Lemma wait_poll_returns_last_snapshot_witness :
  let starting := snapshot "p1" "starting" None None in
  let processing := snapshot "p1" "processing" None None in
  let succeeded := snapshot "p1" "succeeded" (Some ["hello"]) None in
  exists w',
    wait starting (poll_options 10) None true
      (fresh_world [inr processing; inr succeeded])
    = (Returned succeeded, w')
    /\ progress_calls (trace w') = [starting; processing; succeeded]
    /\ network_calls (trace w')
       = [EvGet "/predictions/p1"; EvGet "/predictions/p1"].
Proof.
  intros starting processing succeeded.
  destruct (wait_poll_returns_last_snapshot starting succeeded [processing] []
              (poll_options 10) None true
              (fresh_world [inr processing; inr succeeded])
              eq_refl eq_refl
              (Forall_cons processing eq_refl (Forall_nil _))
              eq_refl (fun _ _ => eq_refl) eq_refl)
    as (w' & Hrun & _ & _ & Hprogress & Hnetwork).
  exists w'. split; [exact Hrun|]. split; [exact Hprogress | exact Hnetwork].
Defined.

(** ** [waitWithBlock] *)

Lemma wait_block (prediction : PredictionResponse) (options : WaitOptions)
    (signal : option AbortSignal) (progress : bool) (w : World) :
  WaitOptions.type options = Some block \/ WaitOptions.type options = None ->
  wait prediction options signal progress w
  = waitWithBlock prediction options signal progress
      (after_progress progress prediction w).
Proof. intros [Hmode|Hmode]; unfold wait; rewrite Hmode; reflexivity. Qed.

Section Blocking.

Variable prediction : PredictionResponse.
Variable options : WaitOptions.
Variable signal : option AbortSignal.
Variable progress : bool.

(** The blocking request settles with a snapshot that is not [failed]:
    it is reported and returned, terminal or not. *)
Lemma waitWithBlock_returned (result : PredictionResponse)
    (rest : list Answer) (w : World) :
  answers w = inr result :: rest ->
  (PredictionResponse.status result =? "failed") = false ->
  waitWithBlock prediction options signal progress w
  = (Returned result,
     after_progress progress result
       (after_request (wait_request prediction options signal) rest w)).
Proof.
  intros Hans Hstatus. unfold waitWithBlock, try_catch, bind, request.
  rewrite Hans. unfold call_progress, after_progress.
  rewrite Hstatus. reflexivity.
Qed.

(** The blocking request settles with a [failed] snapshot: the error
    thrown inside the [try] is caught by its own [catch], whose last line
    starts the polling loop on the handle [wait] was called with. *)
Lemma waitWithBlock_failed (result : PredictionResponse)
    (rest : list Answer) (w : World) :
  answers w = inr result :: rest ->
  PredictionResponse.status result = "failed" ->
  waitWithBlock prediction options signal progress w
  = waitWithPolling prediction options signal progress
      (after_progress progress result
         (after_request (wait_request prediction options signal) rest w)).
Proof.
  intros Hans Hstatus. unfold waitWithBlock, try_catch, bind, request.
  rewrite Hans. unfold call_progress, after_progress.
  rewrite Hstatus. reflexivity.
Qed.

(** The blocking request rejects with an [AbortError]. *)
Lemma waitWithBlock_aborted (err : Thrown) (rest : list Answer) (w : World) :
  answers w = inl err :: rest ->
  instanceofError err = true ->
  name err = "AbortError" ->
  waitWithBlock prediction options signal progress w
  = (Threw prediction_cancelled,
     after_request (wait_request prediction options signal) rest w).
Proof.
  intros Hans Hinst Hname. unfold waitWithBlock, try_catch, bind, request.
  rewrite Hans, Hinst, Hname. reflexivity.
Qed.

(** The blocking request rejects with anything else. *)
Lemma waitWithBlock_rejected (err : Thrown) (rest : list Answer) (w : World) :
  answers w = inl err :: rest ->
  instanceofError err = false \/ name err <> "AbortError" ->
  waitWithBlock prediction options signal progress w
  = waitWithPolling prediction options signal progress
      (after_request (wait_request prediction options signal) rest w).
Proof.
  intros Hans Hother. unfold waitWithBlock, try_catch, bind, request.
  rewrite Hans.
  replace (instanceofError err && (name err =? "AbortError")) with false;
    [reflexivity|].
  symmetry. apply andb_false_iff.
  destruct Hother as [Hinst|Hname]; [left; exact Hinst|right].
  apply String.eqb_neq. exact Hname.
Qed.

(** Whatever the blocking request rejects with, a token that is aborted by
    then makes the wait end as cancelled when the handle is not terminal:
    either the [catch] recognises the rejection, or the first check of the
    polling loop sees the token. *)
Lemma waitWithBlock_rejected_while_aborted (err : Thrown)
    (rest : list Answer) (w : World) :
  answers w = inl err :: rest ->
  is_terminal prediction = false ->
  aborted_at signal (S (clock w)) = true ->
  waitWithBlock prediction options signal progress w
  = (Threw prediction_cancelled,
     after_request (wait_request prediction options signal) rest w).
Proof.
  intros Hans Hentry Hab.
  destruct (instanceofError err) eqn:Hinst;
    [destruct (String.eqb_spec (name err) "AbortError") as [Hname|Hname]|].
  - apply (waitWithBlock_aborted err); assumption.
  - rewrite (waitWithBlock_rejected err rest) by (try assumption; now right).
    apply waitWithPolling_cancelled; assumption.
  - rewrite (waitWithBlock_rejected err rest) by (try assumption; now left).
    apply waitWithPolling_cancelled; assumption.
Qed.

End Blocking.

(** ** [wait] in block mode *)

(** C1.  Block mode, the blocking request answers with the [failed]
    snapshot whose error is "boom".  The prediction-failed error is thrown
    inside the [try] and caught by its [catch], which starts the polling
    loop on the handle [wait] was called with.  With a server that keeps
    reporting the failure, [wait] ends with the prediction-failed error
    only after a timer, a status fetch and a second [progress] call for
    the failure; with a status fetch that fails, [wait] ends with the
    status-fetch error instead; with a status fetch that reports success,
    [wait] returns that snapshot. *)
Theorem wait_block_failed_snapshot_polls_again :
  wait starting_handle WaitOptions.empty None true
    (fresh_world [inr failed_boom; inr failed_boom])
  = (Threw (new_Error "Prediction failed: boom"),
     {| answers := [];
        clock := 3;
        trace := [EvProgress starting_handle;
                  EvPostWait "/predictions/p1/wait" 60 false;
                  EvProgress failed_boom;
                  EvSleep 500;
                  EvGet "/predictions/p1";
                  EvProgress failed_boom] |})
  /\ fst (wait starting_handle WaitOptions.empty None true
            (fresh_world [inr failed_boom; inl network_error]))
     = Threw (new_Error "Failed to get prediction: Network Error")
  /\ fst (wait starting_handle WaitOptions.empty None true
            (fresh_world [inr failed_boom; inr succeeded_hello]))
     = Returned succeeded_hello.
Proof. repeat split. Qed.

(** C2.  Block mode, the blocking request rejects with a value that is not
    an [Error] named [AbortError].  Then [wait] is the polling loop run on
    the very handle, options, token and callback [wait] was given, in the
    world the rejected request leaves behind: the rejection is dropped,
    and outcome and effects from there on are those of polling. *)
Theorem wait_block_falls_back_to_polling
    (prediction : PredictionResponse) (options : WaitOptions)
    (signal : option AbortSignal) (progress : bool)
    (err : Thrown) (rest : list Answer) (w : World) :
  WaitOptions.type options = Some block \/ WaitOptions.type options = None ->
  answers w = inl err :: rest ->
  instanceofError err = false \/ name err <> "AbortError" ->
  wait prediction options signal progress w
  = waitWithPolling prediction options signal progress
      (after_request (wait_request prediction options signal) rest
         (after_progress progress prediction w)).
Proof.
  intros Hmode Hans Hother.
  rewrite wait_block by exact Hmode.
  apply (waitWithBlock_rejected _ _ _ _ err).
  - rewrite <- Hans. unfold after_progress, log.
    destruct progress; reflexivity.
  - exact Hother.
Qed.

Lemma wait_block_falls_back_to_polling_witness :
  (WaitOptions.type WaitOptions.empty = Some block
   \/ WaitOptions.type WaitOptions.empty = None)
  /\ (instanceofError network_error = false
      \/ name network_error <> "AbortError")
  /\ wait starting_handle WaitOptions.empty None true
       (fresh_world
          [inl network_error; inr processing_snapshot; inr succeeded_hello])
     = (Returned succeeded_hello,
        {| answers := [];
           clock := 5;
           trace := [EvProgress starting_handle;
                     EvPostWait "/predictions/p1/wait" 60 false;
                     EvSleep 500;
                     EvGet "/predictions/p1";
                     EvProgress processing_snapshot;
                     EvSleep 500;
                     EvGet "/predictions/p1";
                     EvProgress succeeded_hello] |}).
Proof.
  assert (Hother : instanceofError network_error = false
                   \/ name network_error <> "AbortError")
    by (right; discriminate).
  split; [right; reflexivity|].
  split; [exact Hother|].
  rewrite (wait_block_falls_back_to_polling starting_handle WaitOptions.empty
             None true network_error
             [inr processing_snapshot; inr succeeded_hello]
             (fresh_world
                [inl network_error; inr processing_snapshot;
                 inr succeeded_hello])
             (or_intror eq_refl) eq_refl Hother).
  reflexivity.
Defined.

(** ** Cancellation *)




(** ** [FileOutput.blob] *)

Lemma blob_calls_cached (p : BlobPromise) :
  forall (n : nat) (self : FileOutput) (net : FetchLog),
    blob_ self = Some p ->
    blob_calls n self net = (repeat p n, self, net).
Proof.
  induction n as [|n IH]; intros self net Hcached; [reflexivity|].
  cbn [blob_calls repeat]. unfold blob. rewrite Hcached.
  rewrite IH by exact Hcached. reflexivity.
Qed.

(** C5.  On an Output Reference whose promise has not been created yet,
    [n >= 1] calls of [blob()] start exactly one byte-fetch operation, for
    the reference's URL: the first call creates the promise and stores it,
    and every call hands back that one promise.  Awaiting it yields the
    same outcome for every caller, the bytes or the failure of that single
    operation, and any number of further calls fetches nothing more. *)
Theorem blob_fetches_once (self : FileOutput) (net : FetchLog) (n : nat) :
  blob_ self = None ->
  1 <= n ->
  let p := List.length net in
  let cached := {| url_ := url_ self; blob_ := Some p |} in
  blob_calls n self net = (repeat p n, cached, (net ++ [url_ self])%list)
  /\ (forall (Blob : Type) (settle : nat -> Thrown + Blob),
        map (await_blob settle) (repeat p n) = repeat (settle p) n)
  /\ (forall m : nat,
        blob_calls m cached (net ++ [url_ self])%list
        = (repeat p m, cached, (net ++ [url_ self])%list)).
Proof.
  intros Hfresh Hn p cached.
  destruct n as [|n]; [lia|].
  split; [|split].
  - cbn [blob_calls repeat]. unfold blob, fetch_blob. rewrite Hfresh.
    fold p. fold cached.
    rewrite (blob_calls_cached p) by reflexivity. reflexivity.
  - intros Blob settle. unfold await_blob. apply map_repeat.
  - intros m. apply blob_calls_cached. reflexivity.
Qed.

Lemma blob_fetches_once_witness :
  blob_ (new_FileOutput "https://host/file.png") = None
  /\ 1 <= 3
  /\ blob_calls 3 (new_FileOutput "https://host/file.png") []
     = ([0; 0; 0],
        {| url_ := "https://host/file.png"; blob_ := Some 0 |},
        ["https://host/file.png"]).
Proof.
  split; [reflexivity|]. split; [lia|].
  exact (proj1 (blob_fetches_once (new_FileOutput "https://host/file.png")
                  [] 3 eq_refl (le_S _ _ (le_S _ _ (le_n 1))))).
Defined.

(** ** [run] after the wait phase *)

(** [run] once the identifier parsed, the submission returned a handle and
    the wait phase returned a snapshot. *)
Lemma run_after_wait (identifier : string) (options : RunOptions)
    (owner name version : option string)
    (prediction result : PredictionResponse) (w w1 w2 : World) :
  parse_identifier identifier = inr (owner, name, version) ->
  createPrediction (prediction_input owner name options) w
  = (Returned prediction, w1) ->
  wait prediction (wait_options options) (RunOptions.signal options)
    (RunOptions.progress options) w1
  = (Returned result, w2) ->
  run identifier options w
  = (match PredictionResponse.output result with
     | None => Threw no_output
     | Some outputs => Returned (map map_output outputs)
     end, w2).
Proof.
  intros Hparse Hcreate Hwait. unfold run. rewrite Hparse.
  unfold bind. rewrite Hcreate, Hwait.
  destruct (PredictionResponse.output result); reflexivity.
Qed.

Lemma prefix_app_l :
  forall s1 s2 s, String.prefix (s1 ++ s2) s = true -> String.prefix s1 s = true.
Proof.
  induction s1 as [|c s1 IH]; intros s2 s H.
  - destruct s; reflexivity.
  - destruct s as [|c' s]; [discriminate H|].
    cbn [String.append String.prefix] in *.
    destruct (ascii_dec c c'); [|discriminate H].
    exact (IH s2 s H).
Qed.

(** Every [http://] and [https://] URL passes the test of [run]. *)
Lemma http_urls_startWith_http (s : string) :
  String.prefix "http://" s = true \/ String.prefix "https://" s = true ->
  startsWith_http s = true.
Proof.
  unfold startsWith_http. intros [H|H].
  - exact (prefix_app_l "http" "://" s H).
  - exact (prefix_app_l "http" "s://" s H).
Qed.

(** C7.  When the wait phase of [run] returns a snapshot with an output
    list, [run] returns one result per output, in the same order: an
    output that passes the test [startsWith('http')] (every [http://] and
    [https://] URL does) becomes an Output Reference whose [url()] is that
    very string, and any other output is handed on as the string it is.
    In particular the list with the one output "https://host/file.png"
    maps to one Output Reference with that [url()]. *)
Theorem run_maps_outputs_in_order (identifier : string) (options : RunOptions)
    (owner name version : option string)
    (prediction result : PredictionResponse) (outputs : list string)
    (w w1 w2 : World) :
  parse_identifier identifier = inr (owner, name, version) ->
  createPrediction (prediction_input owner name options) w
  = (Returned prediction, w1) ->
  wait prediction (wait_options options) (RunOptions.signal options)
    (RunOptions.progress options) w1
  = (Returned result, w2) ->
  PredictionResponse.output result = Some outputs ->
  exists results,
    run identifier options w = (Returned results, w2)
    /\ List.length results = List.length outputs
    /\ (forall (i : nat) (output : string),
          nth_error outputs i = Some output ->
          (startsWith_http output = true ->
           nth_error results i = Some (inr (new_FileOutput output))
           /\ url (new_FileOutput output) = output)
          /\ (startsWith_http output = false ->
              nth_error results i = Some (inl output)))
    /\ (forall s, String.prefix "http://" s = true
                  \/ String.prefix "https://" s = true ->
                  startsWith_http s = true)
    /\ (exists file, map map_output ["https://host/file.png"] = [inr file]
                     /\ url file = "https://host/file.png").
Proof.
  intros Hparse Hcreate Hwait Houtput.
  exists (map map_output outputs).
  split; [|split; [|split; [|split]]].
  - rewrite (run_after_wait _ _ _ _ _ _ _ _ _ _ Hparse Hcreate Hwait).
    rewrite Houtput. reflexivity.
  - apply length_map.
  - intros i output Hi.
    rewrite nth_error_map, Hi. cbn [option_map]. unfold map_output.
    split; intros Htest; rewrite Htest.
    + split; reflexivity.
    + reflexivity.
  - exact http_urls_startWith_http.
  - eexists. split; reflexivity.
Qed.

Lemma run_maps_outputs_in_order_witness :
  let final :=
    snapshot "p1" "succeeded" (Some ["https://host/file.png"; "hello"]) None in
  exists results,
    run "owner/name:v1" (run_options (Some (poll_options 10)) None true)
      (fresh_world [inr starting_handle; inr final])
    = (Returned results,
       {| answers := []; clock := 3;
          trace := [EvPost "/predictions"
                      (prediction_input (Some "owner") (Some "name")
                         (run_options (Some (poll_options 10)) None true));
                    EvProgress starting_handle;
                    EvSleep 10;
                    EvGet "/predictions/p1";
                    EvProgress final] |})
    /\ nth_error results 0 = Some (inr (new_FileOutput "https://host/file.png"))
    /\ nth_error results 1 = Some (inl "hello").
Proof.
  intros final.
  destruct (run_maps_outputs_in_order "owner/name:v1"
              (run_options (Some (poll_options 10)) None true)
              (Some "owner") (Some "name") (Some "v1") starting_handle final
              ["https://host/file.png"; "hello"]
              (fresh_world [inr starting_handle; inr final])
              _ _ eq_refl eq_refl eq_refl eq_refl)
    as (results & Hrun & _ & Hnth & _).
  exists results. split; [exact Hrun|].
  destruct (Hnth 0 _ eq_refl) as [Hfile _].
  destruct (Hnth 1 _ eq_refl) as [_ Hplain].
  split; [exact (proj1 (Hfile eq_refl)) | exact (Hplain eq_refl)].
Defined.

(** C8.  When the wait phase of [run] returns a snapshot whose status is
    [succeeded] and whose output is absent, [run] returns no result: it
    fails with the no-output error, in the world the wait phase left. *)
Theorem run_no_output (identifier : string) (options : RunOptions)
    (owner name version : option string)
    (prediction result : PredictionResponse) (w w1 w2 : World) :
  parse_identifier identifier = inr (owner, name, version) ->
  createPrediction (prediction_input owner name options) w
  = (Returned prediction, w1) ->
  wait prediction (wait_options options) (RunOptions.signal options)
    (RunOptions.progress options) w1
  = (Returned result, w2) ->
  PredictionResponse.status result = "succeeded" ->
  PredictionResponse.output result = None ->
  run identifier options w = (Threw no_output, w2)
  /\ message no_output = "No output received from the prediction".
Proof.
  intros Hparse Hcreate Hwait _ Houtput.
  rewrite (run_after_wait _ _ _ _ _ _ _ _ _ _ Hparse Hcreate Hwait).
  rewrite Houtput. split; reflexivity.
Qed.

Lemma run_no_output_witness :
  let final := snapshot "p1" "succeeded" None None in
  PredictionResponse.status final = "succeeded"
  /\ PredictionResponse.output final = None
  /\ fst (run "owner/name" (run_options None None false)
            (fresh_world [inr starting_handle; inr final]))
     = Threw no_output.
Proof.
  intros final. split; [reflexivity|]. split; [reflexivity|].
  destruct (run_no_output "owner/name" (run_options None None false)
              (Some "owner") (Some "name") None starting_handle final
              (fresh_world [inr starting_handle; inr final])
              _ _ eq_refl eq_refl eq_refl eq_refl eq_refl)
    as [Hrun _].
  rewrite Hrun. reflexivity.
Defined.

(** C10.  When the wait phase of [run] returns a snapshot whose status is
    [succeeded] and whose output is the empty list, the test
    [!result.output] does not fire, an array being truthy: [run] does not
    fail with the no-output error and returns the empty list. *)
Theorem run_empty_output (identifier : string) (options : RunOptions)
    (owner name version : option string)
    (prediction result : PredictionResponse) (w w1 w2 : World) :
  parse_identifier identifier = inr (owner, name, version) ->
  createPrediction (prediction_input owner name options) w
  = (Returned prediction, w1) ->
  wait prediction (wait_options options) (RunOptions.signal options)
    (RunOptions.progress options) w1
  = (Returned result, w2) ->
  PredictionResponse.status result = "succeeded" ->
  PredictionResponse.output result = Some [] ->
  run identifier options w = (Returned [], w2)
  /\ fst (run identifier options w) <> Threw no_output.
Proof.
  intros Hparse Hcreate Hwait _ Houtput.
  rewrite (run_after_wait _ _ _ _ _ _ _ _ _ _ Hparse Hcreate Hwait).
  rewrite Houtput. split; [reflexivity|]. cbn. discriminate.
Qed.

Lemma run_empty_output_witness :
  let final := snapshot "p1" "succeeded" (Some []) None in
  PredictionResponse.status final = "succeeded"
  /\ PredictionResponse.output final = Some []
  /\ fst (run "owner/name" (run_options (Some (poll_options 10)) None false)
            (fresh_world [inr starting_handle; inr processing_snapshot;
                          inr final]))
     = Returned [].
Proof.
  intros final. split; [reflexivity|]. split; [reflexivity|].
  destruct (run_empty_output "owner/name"
              (run_options (Some (poll_options 10)) None false)
              (Some "owner") (Some "name") None starting_handle final
              (fresh_world [inr starting_handle; inr processing_snapshot;
                            inr final])
              _ _ eq_refl eq_refl eq_refl eq_refl eq_refl)
    as [Hrun _].
  rewrite Hrun. reflexivity.
Defined.

(** ** [split] and the parsing of the model identifier *)

Lemma append_empty_r (s : string) : s ++ "" = s.
Proof. induction s as [|c s IH]; cbn; [reflexivity | now rewrite IH]. Qed.

Lemma string_append_assoc (a b c : string) : (a ++ b) ++ c = a ++ b ++ c.
Proof. induction a as [|x a IH]; cbn; [reflexivity | now rewrite IH]. Qed.

Lemma contains_append (sep : ascii) (a b : string) :
  contains sep (a ++ b) = contains sep a || contains sep b.
Proof.
  induction a as [|x a IH]; cbn [String.append contains]; [reflexivity|].
  now rewrite IH, orb_assoc.
Qed.

Lemma split_not_nil (sep : ascii) (s : string) : split sep s <> [].
Proof.
  destruct s as [|c s]; cbn [split]; [discriminate|].
  destruct (Ascii.eqb c sep); [discriminate|].
  destruct (split sep s); discriminate.
Qed.

Lemma split_app_no_sep (sep : ascii) (s2 : string) :
  forall s1 : string,
    contains sep s1 = false ->
    split sep (s1 ++ s2)
    = match split sep s2 with
      | [] => [s1]
      | piece :: pieces => (s1 ++ piece) :: pieces
      end.
Proof.
  induction s1 as [|c s1 IH]; intros Hfree.
  - cbn [String.append].
    destruct (split sep s2) eqn:E; [now apply split_not_nil in E | reflexivity].
  - cbn [contains] in Hfree. apply orb_false_iff in Hfree as [Hc Hs1].
    cbn [String.append split]. rewrite Hc, (IH Hs1).
    destruct (split sep s2); reflexivity.
Qed.

Lemma split_no_sep (sep : ascii) (s : string) :
  contains sep s = false -> split sep s = [s].
Proof.
  intros Hfree. rewrite <- (append_empty_r s) at 1.
  rewrite split_app_no_sep by exact Hfree.
  cbn [split]. now rewrite append_empty_r.
Qed.

Lemma split_sep_first (sep : ascii) (s : string) :
  split sep (String sep s) = "" :: split sep s.
Proof. cbn [split]. now rewrite Ascii.eqb_refl. Qed.

Lemma split_with_sep (sep : ascii) :
  forall s : string,
    contains sep s = true ->
    exists first second pieces, split sep s = first :: second :: pieces.
Proof.
  induction s as [|c s IH]; intros Hsep; [discriminate|].
  cbn [contains] in Hsep. cbn [split].
  destruct (Ascii.eqb c sep) eqn:Hc.
  - destruct (split sep s) as [|second pieces] eqn:E;
      [now apply split_not_nil in E|].
    now exists "", second, pieces.
  - cbn [orb] in Hsep. destruct (IH Hsep) as (first & second & pieces & E).
    rewrite E. now exists (String c first), second, pieces.
Qed.

Lemma parse_identifier_no_slash (identifier : string) :
  contains "/" identifier = false ->
  parse_identifier identifier
  = inl (new_TypeError
           "Cannot read properties of undefined (reading 'split')").
Proof.
  intros Hfree. unfold parse_identifier.
  rewrite split_no_sep by exact Hfree. reflexivity.
Qed.

Lemma parse_identifier_succeeds_iff (identifier : string) :
  (exists parts, parse_identifier identifier = inr parts)
  <-> contains "/" identifier = true.
Proof.
  split.
  - intros [parts Hparse].
    destruct (contains "/" identifier) eqn:Hsep; [reflexivity|].
    rewrite parse_identifier_no_slash in Hparse by exact Hsep.
    discriminate.
  - intros Hsep. unfold parse_identifier.
    destruct (split_with_sep "/" identifier Hsep)
      as (first & second & pieces & E).
    rewrite E. cbn [nth_error]. eexists. reflexivity.
Qed.

Lemma parse_identifier_owner_name (owner name : string) :
  contains "/" owner = false ->
  contains "/" name = false ->
  contains ":" name = false ->
  parse_identifier (owner ++ "/" ++ name) = inr (Some owner, Some name, None).
Proof.
  intros Howner Hname Hcolon. unfold parse_identifier.
  rewrite split_app_no_sep by exact Howner.
  change ("/" ++ name) with (String "/" name).
  rewrite split_sep_first, (split_no_sep "/" name) by exact Hname.
  cbn [nth_error]. rewrite (split_no_sep ":" name) by exact Hcolon.
  now rewrite append_empty_r.
Qed.

Lemma parse_identifier_owner_name_version (owner name version : string) :
  contains "/" owner = false ->
  contains "/" name = false ->
  contains ":" name = false ->
  exists v,
    parse_identifier (owner ++ "/" ++ name ++ ":" ++ version)
    = inr (Some owner, Some name, Some v).
Proof.
  intros Howner Hname Hcolon. unfold parse_identifier.
  rewrite split_app_no_sep by exact Howner.
  change ("/" ++ name ++ ":" ++ version)
    with (String "/" (name ++ String ":" version)).
  rewrite split_sep_first, (split_app_no_sep "/" _ name) by exact Hname.
  cbn [split]. change (Ascii.eqb ":" "/") with false. cbn iota.
  destruct (split "/" version) as [|rest pieces] eqn:E;
    [now apply split_not_nil in E|].
  cbn [nth_error].
  rewrite (split_app_no_sep ":" _ name) by exact Hcolon.
  rewrite split_sep_first.
  destruct (split ":" rest) as [|v vs] eqn:E';
    [now apply split_not_nil in E'|].
  cbn [nth_error]. exists v. now rewrite !append_empty_r.
Qed.

(** ** The trace only grows *)

Lemma extends_trace_ret {A : Type} (a : A) : extends_trace (ret a).
Proof. intros w. exists []. symmetry. apply app_nil_r. Qed.

Lemma extends_trace_throw {A : Type} (e : Thrown) :
  extends_trace (@throw A e).
Proof. intros w. exists []. symmetry. apply app_nil_r. Qed.

Lemma extends_trace_pending {A : Type} :
  extends_trace (fun w => (@Pending A, w)).
Proof. intros w. exists []. symmetry. apply app_nil_r. Qed.

Lemma extends_trace_bind {A B : Type} (m : Async A) (k : A -> Async B) :
  extends_trace m ->
  (forall a, extends_trace (k a)) ->
  extends_trace (bind m k).
Proof.
  intros Hm Hk w. unfold bind.
  destruct (Hm w) as [t Ht].
  destruct (m w) as [[a| e |] w'] eqn:E; cbn [snd] in *.
  - destruct (Hk a w') as [t' Ht'].
    exists (t ++ t')%list. now rewrite Ht', Ht, app_assoc.
  - now exists t.
  - now exists t.
Qed.

Lemma extends_trace_try_catch {A : Type} (m : Async A)
    (handler : Thrown -> Async A) :
  extends_trace m ->
  (forall e, extends_trace (handler e)) ->
  extends_trace (try_catch m handler).
Proof.
  intros Hm Hh w. unfold try_catch.
  destruct (Hm w) as [t Ht].
  destruct (m w) as [[a| e |] w'] eqn:E; cbn [snd] in *.
  - now exists t.
  - destruct (Hh e w') as [t' Ht'].
    exists (t ++ t')%list. now rewrite Ht', Ht, app_assoc.
  - now exists t.
Qed.

Lemma extends_trace_request (e : Event) : extends_trace (request e).
Proof.
  intros w. exists [e]. unfold request.
  destruct (answers w) as [|[err|data] rest]; reflexivity.
Qed.

Lemma extends_trace_sleep (ms : Z) : extends_trace (sleep ms).
Proof. intros w. now exists [EvSleep ms]. Qed.

Lemma extends_trace_read_aborted (signal : option AbortSignal) :
  extends_trace (read_aborted signal).
Proof. intros w. exists []. symmetry. apply app_nil_r. Qed.

Lemma extends_trace_call_progress (progress : bool) (p : PredictionResponse) :
  extends_trace (call_progress progress p).
Proof.
  intros w. unfold call_progress. destruct progress; cbn [snd].
  - now exists [EvProgress p].
  - exists []. symmetry. apply app_nil_r.
Qed.

Create HintDb extends discriminated.
#[local] Hint Resolve extends_trace_ret extends_trace_throw
  extends_trace_pending extends_trace_request extends_trace_sleep
  extends_trace_read_aborted extends_trace_call_progress : extends.

Ltac extends_step :=
  first [ solve [auto with extends]
        | apply extends_trace_bind; [|intros ?]
        | apply extends_trace_try_catch; [|intros ?]
        | match goal with
          | |- extends_trace (if ?b then _ else _) => destruct b
          | |- extends_trace (match ?x with _ => _ end) => destruct x
          end ].

Lemma extends_trace_createPrediction (input : PredictionInput) :
  extends_trace (createPrediction input).
Proof. unfold createPrediction. repeat extends_step. Qed.

Lemma extends_trace_getPrediction (id : string) :
  extends_trace (getPrediction id).
Proof. unfold getPrediction. repeat extends_step. Qed.

#[local] Hint Resolve extends_trace_createPrediction
  extends_trace_getPrediction : extends.

Lemma extends_trace_poll_loop interval signal progress :
  forall fuel cur, extends_trace (poll_loop fuel interval signal progress cur).
Proof.
  induction fuel as [|fuel IH]; intros cur; rewrite poll_loop_eq;
    repeat extends_step.
Qed.

Lemma extends_trace_waitWithPolling prediction options signal progress :
  extends_trace (waitWithPolling prediction options signal progress).
Proof.
  intros w. unfold waitWithPolling.
  apply (extends_trace_bind
           (poll_loop (S (List.length (answers w))) _ signal progress
              prediction)).
  - apply extends_trace_poll_loop.
  - intros cur. repeat extends_step.
Qed.

#[local] Hint Resolve extends_trace_waitWithPolling : extends.

Lemma extends_trace_waitWithBlock prediction options signal progress :
  extends_trace (waitWithBlock prediction options signal progress).
Proof. unfold waitWithBlock. repeat extends_step. Qed.

#[local] Hint Resolve extends_trace_waitWithBlock : extends.

Lemma extends_trace_wait prediction options signal progress :
  extends_trace (wait prediction options signal progress).
Proof. unfold wait. repeat extends_step. Qed.

(** The submission is the first thing [run] does to the world once the
    identifier has parsed, and its body carries [`${owner}/${name}`]. *)
Lemma run_submits_first (identifier : string) (options : RunOptions)
    (owner name version : option string) (w : World) :
  parse_identifier identifier = inr (owner, name, version) ->
  exists t,
    trace (snd (run identifier options w))
    = (trace w
       ++ EvPost "/predictions" (prediction_input owner name options) :: t)%list.
Proof.
  intros Hparse. unfold run. rewrite Hparse.
  unfold bind at 1.
  assert (Hcreate :
    trace (snd (createPrediction (prediction_input owner name options) w))
    = (trace w
       ++ [EvPost "/predictions" (prediction_input owner name options)])%list).
  { unfold createPrediction, try_catch, request.
    destruct (answers w) as [|[err|data] rest]; [reflexivity| |reflexivity].
    destruct (isAxiosError err); reflexivity. }
  destruct (createPrediction (prediction_input owner name options) w)
    as [[prediction| e |] w1]; cbn [snd] in *.
  - match goal with
    | |- context [bind ?m ?k w1] =>
        assert (Hrest : extends_trace (bind m k))
    end.
    { apply extends_trace_bind; [apply extends_trace_wait|].
      intros result. repeat extends_step. }
    destruct (Hrest w1) as [t Ht]. exists t.
    rewrite Ht, Hcreate, <- app_assoc. reflexivity.
  - exists []. exact Hcreate.
  - exists []. exact Hcreate.
Qed.

(** C9, as stated, fails on the identifier "a/b/c".  It parses, and [run]
    submits the model string "a/b".  Yet it is not of the form
    [owner/name] or [owner/name:version] with an owner and a name free of
    '/'; and read as [owner/name] with a name that may hold a '/', the
    model string submitted is not [owner ++ "/" ++ name]. *)
Lemma run_parses_extra_segment :
  parse_identifier "a/b/c" = inr (Some "a", Some "b", None)
  /\ run "a/b/c" (run_options None None false) (fresh_world [])
     = (Pending,
        {| answers := []; clock := 0;
           trace := [EvPost "/predictions"
                       {| PredictionInput.model := "a/b";
                          PredictionInput.input := [("prompt", JString "x")];
                          PredictionInput.webhook := None;
                          PredictionInput.webhook_events_filter := None |}]
        |})
  /\ (forall owner name version : string,
        contains "/" owner = false ->
        contains "/" name = false ->
        "a/b/c" <> owner ++ "/" ++ name
        /\ "a/b/c" <> owner ++ "/" ++ name ++ ":" ++ version)
  /\ (forall owner name : string,
        "a/b/c" = owner ++ "/" ++ name -> "a/b" <> owner ++ "/" ++ name).
Proof.
  split; [reflexivity|]. split; [reflexivity|]. split.
  - intros owner name version Howner Hname. split; intros H.
    + apply (f_equal (split "/")) in H.
      rewrite split_app_no_sep in H by exact Howner.
      change ("/" ++ name) with (String "/" name) in H.
      rewrite split_sep_first, (split_no_sep "/" name) in H by exact Hname.
      discriminate H.
    + apply (f_equal (contains ":")) in H.
      rewrite !contains_append in H.
      change (contains ":" (":" ++ version)) with true in H.
      rewrite !orb_true_r in H. discriminate H.
  - intros owner name H. rewrite <- H. discriminate.
Qed.

(** C9, amended.  The parsing of the model identifier in [run] is partial.
    An identifier without '/' makes [run] fail with the engine's
    [TypeError], which is none of the errors the client constructs, and
    leaves the world untouched: no request has been sent.  Parsing
    succeeds exactly for the identifiers that contain a '/', those with
    further segments included.  For [owner/name] and [owner/name:version],
    where [owner] has no '/' and [name] has neither '/' nor ':', the first
    thing [run] does is the submission, with the model string
    [owner ++ "/" ++ name]: the version suffix is dropped.  And whenever
    parsing succeeds, the owner and the name it yields are both defined
    and the first thing [run] does is the submission with the model string
    made of these two. *)
Theorem run_identifier_parsing :
  (forall (identifier : string) (options : RunOptions) (w : World),
     contains "/" identifier = false ->
     exists e,
       run identifier options w = (Threw e, w)
       /\ name e = "TypeError"
       /\ forall msg, e <> new_Error msg)
  /\ (forall identifier : string,
        (exists parts, parse_identifier identifier = inr parts)
        <-> contains "/" identifier = true)
  /\ (forall (owner name version : string) (options : RunOptions) (w : World),
        contains "/" owner = false ->
        contains "/" name = false ->
        contains ":" name = false ->
        let body := prediction_input (Some owner) (Some name) options in
        PredictionInput.model body = owner ++ "/" ++ name
        /\ (exists t,
              trace (snd (run (owner ++ "/" ++ name) options w))
              = (trace w ++ EvPost "/predictions" body :: t)%list)
        /\ (exists t,
              trace (snd (run (owner ++ "/" ++ name ++ ":" ++ version)
                            options w))
              = (trace w ++ EvPost "/predictions" body :: t)%list))
  /\ (forall (identifier : string) (o n v : option string)
             (options : RunOptions) (w : World),
        parse_identifier identifier = inr (o, n, v) ->
        exists owner name,
          o = Some owner /\ n = Some name
          /\ let body := prediction_input (Some owner) (Some name) options in
             PredictionInput.model body = owner ++ "/" ++ name
             /\ exists t,
                  trace (snd (run identifier options w))
                  = (trace w ++ EvPost "/predictions" body :: t)%list).
Proof.
  split; [|split; [|split]].
  - intros identifier options w Hfree.
    unfold run. rewrite parse_identifier_no_slash by exact Hfree.
    eexists. split; [reflexivity|]. split; [reflexivity|].
    intros msg. discriminate.
  - exact parse_identifier_succeeds_iff.
  - intros owner name version options w Howner Hname Hcolon body.
    split; [reflexivity|]. split.
    + apply (run_submits_first _ _ _ _ None).
      apply parse_identifier_owner_name; assumption.
    + destruct (parse_identifier_owner_name_version owner name version
                  Howner Hname Hcolon) as [v Hparse].
      apply (run_submits_first _ _ _ _ (Some v)). exact Hparse.
  - intros identifier o n v options w Hparse.
    assert (Hdefined : exists owner name, o = Some owner /\ n = Some name).
    { unfold parse_identifier in Hparse.
      destruct (split "/" identifier) as [|owner [|model others]];
        cbn [nth_error] in Hparse; try discriminate Hparse.
      destruct (split ":" model) as [|name pieces] eqn:Emodel;
        [now apply split_not_nil in Emodel|].
      cbn [nth_error] in Hparse. injection Hparse as <- <- _.
      now exists owner, name. }
    destruct Hdefined as (owner & name & -> & ->).
    exists owner, name. split; [reflexivity|]. split; [reflexivity|].
    intros body. split; [reflexivity|].
    exact (run_submits_first identifier options _ _ v w Hparse).
Qed.

Lemma run_identifier_parsing_witness :
  (contains "/" "flux-schnell" = false
   /\ exists e,
        run "flux-schnell" (run_options None None true)
          (fresh_world [inr starting_handle])
        = (Threw e, fresh_world [inr starting_handle])
        /\ name e = "TypeError")
  /\ (contains "/" "owner" = false
      /\ contains "/" "name" = false
      /\ contains ":" "name" = false
      /\ exists t,
           trace (snd (run "owner/name:v1" (run_options None None true)
                         (fresh_world [])))
           = EvPost "/predictions"
               {| PredictionInput.model := "owner/name";
                  PredictionInput.input := [("prompt", JString "x")];
                  PredictionInput.webhook := None;
                  PredictionInput.webhook_events_filter := None |} :: t)
  /\ (parse_identifier "a/b/c" = inr (Some "a", Some "b", None)
      /\ exists t,
           trace (snd (run "a/b/c" (run_options None None true)
                         (fresh_world [inr succeeded_hello])))
           = EvPost "/predictions"
               {| PredictionInput.model := "a/b";
                  PredictionInput.input := [("prompt", JString "x")];
                  PredictionInput.webhook := None;
                  PredictionInput.webhook_events_filter := None |} :: t).
Proof.
  split; [|split].
  - split; [reflexivity|].
    destruct (proj1 run_identifier_parsing "flux-schnell"
                (run_options None None true)
                (fresh_world [inr starting_handle]) eq_refl)
      as (e & Hrun & Hname & _).
    exists e. split; assumption.
  - split; [reflexivity|]. split; [reflexivity|]. split; [reflexivity|].
    destruct (proj1 (proj2 (proj2 run_identifier_parsing))
                "owner" "name" "v1"
                (run_options None None true) (fresh_world [])
                eq_refl eq_refl eq_refl)
      as (_ & _ & t & Ht).
    exists t. exact Ht.
  - split; [reflexivity|].
    destruct (proj2 (proj2 (proj2 run_identifier_parsing))
                "a/b/c" (Some "a") (Some "b") None
                (run_options None None true)
                (fresh_world [inr succeeded_hello]) eq_refl)
      as (owner & name & Ho & Hn & _ & t & Ht).
    injection Ho as <-. injection Hn as <-.
    exists t. exact Ht.
Defined.

(** * Further properties of the client *)

(** ** The polling loop on any script *)

Lemma last_cons_default {A : Type} :
  forall (l : list A) (a d : A), last (a :: l) d = last l a.
Proof.
  induction l as [|b l IH]; intros a d; [reflexivity|].
  change (last (a :: b :: l) d) with (last (b :: l) d).
  now rewrite !IH.
Qed.

Lemma last_non_terminal (fetched : list PredictionResponse)
    (cur : PredictionResponse) :
  is_terminal cur = false ->
  Forall (fun p => is_terminal p = false) fetched ->
  is_terminal (last fetched cur) = false.
Proof.
  intros Hcur Hall. revert cur Hcur.
  induction Hall as [|p fetched Hp _ IH]; intros cur Hcur; [exact Hcur|].
  rewrite last_cons_default. apply IH. exact Hp.
Qed.

Lemma trace_after_progress progress p w :
  trace (after_progress progress p w)
  = (trace w ++ if progress then [EvProgress p] else [])%list.
Proof.
  unfold after_progress, log. destruct progress; cbn [trace];
    [reflexivity | symmetry; apply app_nil_r].
Qed.

Lemma answers_after_progress progress p w :
  answers (after_progress progress p w) = answers w.
Proof. unfold after_progress, log. destruct progress; reflexivity. Qed.

Lemma clock_after_progress progress p w :
  clock (after_progress progress p w) = clock w.
Proof. unfold after_progress, log. destruct progress; reflexivity. Qed.

Section PollingOnScripts.

Variable options : WaitOptions.
Variable signal : option AbortSignal.
Variable progress : bool.

Let interval : Z := or_default (WaitOptions.interval options) 500.

(** The loop across a run of fetched snapshots none of which is terminal:
    it carries on from the last of them. *)
Lemma waitWithPolling_fetches :
  forall (fetched : list PredictionResponse) (cur : PredictionResponse)
         (rest : list Answer) (w : World),
    is_terminal cur = false ->
    Forall (fun p => is_terminal p = false) fetched ->
    (forall k, k < List.length fetched ->
               aborted_at signal (clock w + 2 * k) = false) ->
    answers w = (map inr fetched ++ rest)%list ->
    waitWithPolling cur options signal progress w
    = waitWithPolling (last fetched cur) options signal progress
        {| answers := rest;
           clock := clock w + 2 * List.length fetched;
           trace := trace w ++ poll_trace interval progress cur fetched |}.
Proof.
  induction fetched as [|next fetched IH]; intros cur rest w Hcur Hall Hab Hans.
  - cbn [map app] in Hans. cbn [last poll_trace List.length].
    rewrite app_nil_r, Nat.mul_0_r, Nat.add_0_r, <- Hans.
    destruct w; reflexivity.
  - cbn [map app] in Hans.
    inversion Hall as [|? ? Hnext Hall']; subst.
    rewrite (waitWithPolling_fetch options signal progress cur next
               (map inr fetched ++ rest)%list) by
      (try assumption; rewrite <- (Hab 0) by (cbn; lia); f_equal; lia).
    rewrite (IH next rest); try assumption.
    + rewrite last_cons_default. unfold after_poll.
      cbn [answers clock trace poll_trace List.length].
      rewrite <- !app_assoc. f_equal. f_equal. lia.
    + intros k Hk. unfold after_poll. cbn [clock].
      rewrite <- (Hab (S k)) by (cbn; lia). f_equal. lia.
    + reflexivity.
Qed.

(** A status fetch that rejects ends the loop with what the [catch] of
    [getPrediction] throws. *)
Lemma waitWithPolling_fetch_rejected (cur : PredictionResponse)
    (err : Thrown) (rest : list Answer) (w : World) :
  is_terminal cur = false ->
  aborted_at signal (clock w) = false ->
  answers w = inl err :: rest ->
  waitWithPolling cur options signal progress w
  = (Threw (getPrediction_error err),
     {| answers := rest;
        clock := S (S (clock w));
        trace := trace w
                 ++ [EvSleep interval;
                     EvGet ("/predictions/" ++ PredictionResponse.id cur)] |}).
Proof.
  intros Hcur Hab Hans. unfold waitWithPolling, bind.
  rewrite Hans. cbn [List.length]. rewrite poll_loop_eq, Hcur.
  run_async. rewrite Hab, Hans. unfold getPrediction_error.
  destruct (isAxiosError err); rewrite <- app_assoc; reflexivity.
Qed.

(** A status fetch that never settles leaves the loop waiting. *)
Lemma waitWithPolling_fetch_in_flight (cur : PredictionResponse) (w : World) :
  is_terminal cur = false ->
  aborted_at signal (clock w) = false ->
  answers w = [] ->
  waitWithPolling cur options signal progress w
  = (Pending,
     {| answers := [];
        clock := S (clock w);
        trace := trace w
                 ++ [EvSleep interval;
                     EvGet ("/predictions/" ++ PredictionResponse.id cur)] |}).
Proof.
  intros Hcur Hab Hans. unfold waitWithPolling, bind.
  rewrite Hans. cbn [List.length]. rewrite poll_loop_eq, Hcur.
  run_async. rewrite Hab, Hans. rewrite <- app_assoc. reflexivity.
Qed.

End PollingOnScripts.

Lemma poll_trace_app interval progress :
  forall (l1 l2 : list PredictionResponse) (cur : PredictionResponse),
    poll_trace interval progress cur (l1 ++ l2)
    = (poll_trace interval progress cur l1
       ++ poll_trace interval progress (last l1 cur) l2)%list.
Proof.
  induction l1 as [|next l1 IH]; intros l2 cur; [reflexivity|].
  cbn [app poll_trace]. rewrite IH, last_cons_default, <- !app_assoc.
  reflexivity.
Qed.

(** [wait] in poll mode across a run of fetched snapshots none of which is
    terminal. *)
Lemma wait_poll_fetches (prediction : PredictionResponse)
    (options : WaitOptions) (signal : option AbortSignal) (progress : bool)
    (fetched : list PredictionResponse) (rest : list Answer) (w : World) :
  WaitOptions.type options = Some poll ->
  is_terminal prediction = false ->
  Forall (fun p => is_terminal p = false) fetched ->
  (forall k, k < List.length fetched ->
             aborted_at signal (clock w + 2 * k) = false) ->
  answers w = (map inr fetched ++ rest)%list ->
  wait prediction options signal progress w
  = waitWithPolling (last fetched prediction) options signal progress
      {| answers := rest;
         clock := clock w + 2 * List.length fetched;
         trace := trace w
                  ++ (if progress then [EvProgress prediction] else [])
                  ++ poll_trace (or_default (WaitOptions.interval options) 500)
                       progress prediction fetched |}.
Proof.
  intros Hmode Hentry Hall Hab Hans.
  rewrite wait_poll by exact Hmode.
  rewrite (waitWithPolling_fetches options signal progress fetched prediction
             rest); try assumption.
  - rewrite clock_after_progress, trace_after_progress, <- app_assoc.
    reflexivity.
  - intros k Hk. rewrite clock_after_progress. exact (Hab k Hk).
  - rewrite answers_after_progress. exact Hans.
Qed.

(** X1.  Poll mode, a handle that is not terminal, a server that answers
    the status fetches with snapshots that are not terminal and then with
    one whose status is [failed], and a token not aborted at the loop's
    checks.  Then [wait] throws the prediction-failed error made from that
    last snapshot, right after the [progress] call for it and without
    touching the rest of the script.  The message carries the snapshot's
    error text, and the text "null" when the snapshot has none. *)
Theorem wait_poll_fetched_failure
    (prediction final : PredictionResponse)
    (fetched : list PredictionResponse) (later : list Answer)
    (options : WaitOptions) (signal : option AbortSignal) (progress : bool)
    (w : World) :
  WaitOptions.type options = Some poll ->
  is_terminal prediction = false ->
  Forall (fun p => is_terminal p = false) fetched ->
  PredictionResponse.status final = "failed" ->
  (forall k, k <= List.length fetched ->
             aborted_at signal (clock w + 2 * k) = false) ->
  answers w = (map inr (fetched ++ [final]) ++ later)%list ->
  wait prediction options signal progress w
  = (Threw (prediction_failed final),
     {| answers := later;
        clock := clock w + 2 * S (List.length fetched);
        trace := trace w
                 ++ (if progress then [EvProgress prediction] else [])
                 ++ poll_trace (or_default (WaitOptions.interval options) 500)
                      progress prediction (fetched ++ [final]) |})
  /\ (forall text, PredictionResponse.error final = Some text ->
        message (prediction_failed final) = "Prediction failed: " ++ text)
  /\ (PredictionResponse.error final = None ->
      message (prediction_failed final) = "Prediction failed: null").
Proof.
  intros Hmode Hentry Hall Hfinal Hab Hans.
  destruct (status_failed_terminal final Hfinal) as [Hterm Hfailed].
  split; [|split].
  - rewrite map_app, <- app_assoc in Hans. cbn [map app] in Hans.
    rewrite (wait_poll_fetches prediction options signal progress fetched
               (inr final :: later)); try assumption;
      [|intros k Hk; apply Hab; lia].
    rewrite (waitWithPolling_fetch options signal progress _ final later);
      [|apply last_non_terminal; assumption
       |cbn [clock]; apply Hab; lia
       |reflexivity].
    rewrite waitWithPolling_terminal by exact Hterm.
    rewrite Hfailed. unfold after_poll. cbn [answers clock trace].
    rewrite poll_trace_app. cbn [poll_trace].
    rewrite <- !app_assoc, app_nil_r.
    f_equal. f_equal. lia.
  - intros text Herror. unfold prediction_failed. rewrite Herror. reflexivity.
  - intros Herror. unfold prediction_failed. rewrite Herror. reflexivity.
Qed.

Lemma wait_poll_fetched_failure_witness :
  wait starting_handle (poll_options 10) None true
    (fresh_world [inr processing_snapshot; inr failed_boom;
                  inr succeeded_hello])
  = (Threw (new_Error "Prediction failed: boom"),
     {| answers := [inr succeeded_hello];
        clock := 4;
        trace := [EvProgress starting_handle;
                  EvSleep 10; EvGet "/predictions/p1";
                  EvProgress processing_snapshot;
                  EvSleep 10; EvGet "/predictions/p1";
                  EvProgress failed_boom] |}).
Proof.
  rewrite (proj1 (wait_poll_fetched_failure starting_handle failed_boom
                    [processing_snapshot] [inr succeeded_hello]
                    (poll_options 10) None true
                    (fresh_world [inr processing_snapshot; inr failed_boom;
                                  inr succeeded_hello])
                    eq_refl eq_refl
                    (Forall_cons processing_snapshot eq_refl (Forall_nil _))
                    eq_refl (fun _ _ => eq_refl) eq_refl)).
  reflexivity.
Defined.

(** X2.  Poll mode: a status fetch that rejects is not retried.  After any
    number of fetched snapshots that are not terminal, the rejection ends
    [wait] at once with what [getPrediction] throws for it, an axios error
    wrapped as "Failed to get prediction: ..." and any other value as it
    is; the rest of the script stays unconsumed and no [progress] call is
    made for the failed fetch. *)
Theorem wait_poll_fetch_rejected
    (prediction : PredictionResponse)
    (fetched : list PredictionResponse) (err : Thrown) (later : list Answer)
    (options : WaitOptions) (signal : option AbortSignal) (progress : bool)
    (w : World) :
  WaitOptions.type options = Some poll ->
  is_terminal prediction = false ->
  Forall (fun p => is_terminal p = false) fetched ->
  (forall k, k <= List.length fetched ->
             aborted_at signal (clock w + 2 * k) = false) ->
  answers w = (map inr fetched ++ inl err :: later)%list ->
  let interval := or_default (WaitOptions.interval options) 500 in
  wait prediction options signal progress w
  = (Threw (getPrediction_error err),
     {| answers := later;
        clock := clock w + 2 * S (List.length fetched);
        trace := trace w
                 ++ (if progress then [EvProgress prediction] else [])
                 ++ poll_trace interval progress prediction fetched
                 ++ [EvSleep interval;
                     EvGet ("/predictions/"
                            ++ PredictionResponse.id
                                 (last fetched prediction))] |})
  /\ (isAxiosError err = true ->
      getPrediction_error err
      = new_Error ("Failed to get prediction: " ++ message err))
  /\ (isAxiosError err = false -> getPrediction_error err = err).
Proof.
  intros Hmode Hentry Hall Hab Hans interval.
  split; [|split].
  - rewrite (wait_poll_fetches prediction options signal progress fetched
               (inl err :: later)); try assumption;
      [|intros k Hk; apply Hab; lia].
    rewrite (waitWithPolling_fetch_rejected options signal progress _ err
               later);
      [|apply last_non_terminal; assumption
       |cbn [clock]; apply Hab; lia
       |reflexivity].
    cbn [answers clock trace]. fold interval.
    rewrite <- !app_assoc. f_equal. f_equal. lia.
  - intros Haxios. unfold getPrediction_error. now rewrite Haxios.
  - intros Haxios. unfold getPrediction_error. now rewrite Haxios.
Qed.

Lemma wait_poll_fetch_rejected_witness :
  wait starting_handle (poll_options 10) None true
    (fresh_world [inr processing_snapshot; inl network_error;
                  inr succeeded_hello])
  = (Threw (new_Error "Failed to get prediction: Network Error"),
     {| answers := [inr succeeded_hello];
        clock := 4;
        trace := [EvProgress starting_handle;
                  EvSleep 10; EvGet "/predictions/p1";
                  EvProgress processing_snapshot;
                  EvSleep 10; EvGet "/predictions/p1"] |}).
Proof.
  rewrite (proj1 (wait_poll_fetch_rejected starting_handle
                    [processing_snapshot] network_error
                    [inr succeeded_hello] (poll_options 10) None true
                    (fresh_world [inr processing_snapshot; inl network_error;
                                  inr succeeded_hello])
                    eq_refl eq_refl
                    (Forall_cons processing_snapshot eq_refl (Forall_nil _))
                    (fun _ _ => eq_refl) eq_refl)).
  reflexivity.
Defined.

(** X3.  Poll mode: the token is read once per iteration, before the
    timer.  When it is not aborted at the first checks and aborted at the
    check that follows the fetch of [fetched], none of them terminal,
    [wait] throws the cancelled error after exactly those fetches: no
    further timer, no further request, the rest of the script untouched. *)
Theorem wait_poll_cancelled_between_fetches
    (prediction : PredictionResponse)
    (fetched : list PredictionResponse) (rest : list Answer)
    (options : WaitOptions) (signal : option AbortSignal) (progress : bool)
    (w : World) :
  WaitOptions.type options = Some poll ->
  is_terminal prediction = false ->
  Forall (fun p => is_terminal p = false) fetched ->
  (forall k, k < List.length fetched ->
             aborted_at signal (clock w + 2 * k) = false) ->
  aborted_at signal (clock w + 2 * List.length fetched) = true ->
  answers w = (map inr fetched ++ rest)%list ->
  wait prediction options signal progress w
  = (Threw prediction_cancelled,
     {| answers := rest;
        clock := clock w + 2 * List.length fetched;
        trace := trace w
                 ++ (if progress then [EvProgress prediction] else [])
                 ++ poll_trace (or_default (WaitOptions.interval options) 500)
                      progress prediction fetched |}).
Proof.
  intros Hmode Hentry Hall Hab Haborted Hans.
  rewrite (wait_poll_fetches prediction options signal progress fetched rest)
    by assumption.
  apply waitWithPolling_cancelled.
  - apply last_non_terminal; assumption.
  - exact Haborted.
Qed.

Lemma wait_poll_cancelled_between_fetches_witness :
  let token : AbortSignal := fun t => Nat.leb 2 t in
  wait starting_handle (poll_options 10) (Some token) true
    (fresh_world [inr processing_snapshot; inr succeeded_hello])
  = (Threw prediction_cancelled,
     {| answers := [inr succeeded_hello];
        clock := 2;
        trace := [EvProgress starting_handle;
                  EvSleep 10; EvGet "/predictions/p1";
                  EvProgress processing_snapshot] |}).
Proof.
  intros token.
  assert (Hbefore : forall k, k < 1 -> aborted_at (Some token) (0 + 2 * k) = false).
  { intros k Hk. destruct k as [|k]; [reflexivity | lia]. }
  rewrite (wait_poll_cancelled_between_fetches starting_handle
             [processing_snapshot] [inr succeeded_hello]
             (poll_options 10) (Some token) true
             (fresh_world [inr processing_snapshot; inr succeeded_hello])
             eq_refl eq_refl
             (Forall_cons processing_snapshot eq_refl (Forall_nil _))
             Hbefore eq_refl eq_refl).
  reflexivity.
Defined.

(** X4.  Poll mode has no timeout of its own.  When every answer of the
    script is a snapshot that is not terminal and the token is never seen
    aborted, [wait] consumes the whole script, one timer and one status
    fetch per answer, and then starts yet another timer and status fetch:
    it is still waiting, it has neither returned nor thrown. *)
Theorem wait_poll_keeps_polling
    (prediction : PredictionResponse) (fetched : list PredictionResponse)
    (options : WaitOptions) (signal : option AbortSignal) (progress : bool)
    (w : World) :
  WaitOptions.type options = Some poll ->
  is_terminal prediction = false ->
  Forall (fun p => is_terminal p = false) fetched ->
  (forall k, k <= List.length fetched ->
             aborted_at signal (clock w + 2 * k) = false) ->
  answers w = map inr fetched ->
  let interval := or_default (WaitOptions.interval options) 500 in
  wait prediction options signal progress w
  = (Pending,
     {| answers := [];
        clock := S (clock w + 2 * List.length fetched);
        trace := trace w
                 ++ (if progress then [EvProgress prediction] else [])
                 ++ poll_trace interval progress prediction fetched
                 ++ [EvSleep interval;
                     EvGet ("/predictions/"
                            ++ PredictionResponse.id
                                 (last fetched prediction))] |}).
Proof.
  intros Hmode Hentry Hall Hab Hans interval.
  rewrite (wait_poll_fetches prediction options signal progress fetched []);
    try assumption;
    [|intros k Hk; apply Hab; lia | rewrite app_nil_r; exact Hans].
  rewrite waitWithPolling_fetch_in_flight;
    [|apply last_non_terminal; assumption
     |cbn [clock]; apply Hab; lia
     |reflexivity].
  cbn [answers clock trace]. fold interval.
  rewrite <- !app_assoc. reflexivity.
Qed.

Lemma wait_poll_keeps_polling_witness :
  wait starting_handle (poll_options 0) None false
    (fresh_world [inr processing_snapshot; inr processing_snapshot])
  = (Pending,
     {| answers := [];
        clock := 5;
        trace := [EvSleep 500; EvGet "/predictions/p1";
                  EvSleep 500; EvGet "/predictions/p1";
                  EvSleep 500; EvGet "/predictions/p1"] |}).
Proof.
  rewrite (wait_poll_keeps_polling starting_handle
             [processing_snapshot; processing_snapshot]
             (poll_options 0) None false
             (fresh_world [inr processing_snapshot; inr processing_snapshot])
             eq_refl eq_refl
             (Forall_cons processing_snapshot eq_refl
                (Forall_cons processing_snapshot eq_refl (Forall_nil _)))
             (fun _ _ => eq_refl) eq_refl).
  reflexivity.
Defined.

(** ** What poll mode can end with, on any world *)

Lemma poll_loop_outcome interval signal progress :
  forall (fuel : nat) (cur : PredictionResponse) (w w' : World)
         (o : Outcome PredictionResponse),
    poll_loop fuel interval signal progress cur w = (o, w') ->
    match o with
    | Returned r =>
        is_terminal r = true /\ (r = cur \/ In (inr r) (answers w))
    | Threw e =>
        e = prediction_cancelled
        \/ exists err, In err (rejections (answers w))
                       /\ e = getPrediction_error err
    | Pending => True
    end.
Proof.
  induction fuel as [|fuel IH]; intros cur w w' o H;
    rewrite poll_loop_eq in H; destruct (is_terminal cur) eqn:Hcur.
  - injection H as <- _. split; [exact Hcur | now left].
  - injection H as <- _. exact I.
  - injection H as <- _. split; [exact Hcur | now left].
  - revert H. run_async.
    destruct (aborted_at signal (clock w)).
    { intros H. injection H as <- _. now left. }
    destruct (answers w) as [|[err|next] rest] eqn:Hans.
    + intros H. injection H as <- _. exact I.
    + intros H.
      assert (Ho : o = Threw (getPrediction_error err)).
      { unfold getPrediction_error.
        destruct (isAxiosError err); injection H as <- _; reflexivity. }
      subst o. right. exists err. split; [now left | reflexivity].
    + intros H.
      assert (H' : exists w1, answers w1 = rest
                /\ poll_loop fuel interval signal progress next w1 = (o, w')).
      { destruct progress; eexists; (split; [|exact H]); reflexivity. }
      destruct H' as (w1 & Hrest & Hloop).
      specialize (IH next w1 w' o Hloop). rewrite Hrest in IH.
      destruct o as [r|e|]; [| |exact I].
      * destruct IH as [Hterm [Hr|Hin]]; split; try exact Hterm.
        -- right. left. now rewrite Hr.
        -- right. right. exact Hin.
      * destruct IH as [Hc|(err & Hin & He)]; [now left|].
        right. exists err. split; [exact Hin | exact He].
Qed.

(** X5.  Whatever the server answers and whatever the token does, a
    snapshot that [wait] returns in poll mode has status [succeeded], and
    it is the handle [wait] was given or a snapshot the server sent: poll
    mode never returns a snapshot that is still in progress or failed. *)
Theorem wait_poll_returns_only_succeeded
    (prediction result : PredictionResponse) (options : WaitOptions)
    (signal : option AbortSignal) (progress : bool) (w w' : World) :
  WaitOptions.type options = Some poll ->
  wait prediction options signal progress w = (Returned result, w') ->
  PredictionResponse.status result = "succeeded"
  /\ (result = prediction \/ In (inr result) (answers w)).
Proof.
  intros Hmode Hrun. rewrite wait_poll in Hrun by exact Hmode.
  unfold waitWithPolling, bind in Hrun.
  destruct (poll_loop _ _ signal progress prediction
              (after_progress progress prediction w))
    as [[r|e|] w1] eqn:Hloop; try discriminate Hrun.
  apply poll_loop_outcome in Hloop.
  rewrite answers_after_progress in Hloop.
  destruct Hloop as [Hterm Hfrom].
  destruct (PredictionResponse.status r =? "failed") eqn:Hfailed;
    [discriminate Hrun|].
  injection Hrun as -> _. split; [|exact Hfrom].
  apply is_terminal_iff in Hterm. destruct Hterm as [Hs|Hf]; [exact Hs|].
  rewrite Hf in Hfailed. discriminate Hfailed.
Qed.

Lemma wait_poll_returns_only_succeeded_witness :
  PredictionResponse.status succeeded_hello = "succeeded"
  /\ (succeeded_hello = starting_handle
      \/ In (inr succeeded_hello)
           [inr processing_snapshot; inr succeeded_hello; inl network_error]).
Proof.
  exact (wait_poll_returns_only_succeeded starting_handle succeeded_hello
           (poll_options 10) None true
           (fresh_world [inr processing_snapshot; inr succeeded_hello;
                         inl network_error])
           _ eq_refl eq_refl).
Defined.

(** X6.  Whatever the server answers and whatever the token does, what
    [wait] throws in poll mode is one of three things: the cancelled error;
    the prediction-failed error of a snapshot with status [failed] that is
    the handle or was sent by the server; or what [getPrediction] throws
    for a rejection of the script. *)
Theorem wait_poll_throws_only
    (prediction : PredictionResponse) (e : Thrown) (options : WaitOptions)
    (signal : option AbortSignal) (progress : bool) (w w' : World) :
  WaitOptions.type options = Some poll ->
  wait prediction options signal progress w = (Threw e, w') ->
  e = prediction_cancelled
  \/ (exists p, PredictionResponse.status p = "failed"
                /\ (p = prediction \/ In (inr p) (answers w))
                /\ e = prediction_failed p)
  \/ (exists err, In err (rejections (answers w))
                  /\ e = getPrediction_error err).
Proof.
  intros Hmode Hrun. rewrite wait_poll in Hrun by exact Hmode.
  unfold waitWithPolling, bind in Hrun.
  destruct (poll_loop _ _ signal progress prediction
              (after_progress progress prediction w))
    as [[r|e0|] w1] eqn:Hloop; try discriminate Hrun.
  - apply poll_loop_outcome in Hloop.
    rewrite answers_after_progress in Hloop.
    destruct Hloop as [_ Hfrom].
    destruct (String.eqb_spec (PredictionResponse.status r) "failed")
      as [Hfailed|Hfailed]; [|discriminate Hrun].
    injection Hrun as <- _. right. left. now exists r.
  - apply poll_loop_outcome in Hloop.
    rewrite answers_after_progress in Hloop.
    injection Hrun as <- _.
    destruct Hloop as [Hc|Hrej]; [now left | now right; right].
Qed.

Lemma wait_poll_throws_only_witness :
  new_Error "Prediction failed: boom" = prediction_cancelled
  \/ (exists p, PredictionResponse.status p = "failed"
                /\ (p = starting_handle
                    \/ In (inr p)
                         (answers (fresh_world [inr processing_snapshot;
                                                inr failed_boom])))
                /\ new_Error "Prediction failed: boom" = prediction_failed p)
  \/ (exists err,
        In err (rejections
                  (answers (fresh_world [inr processing_snapshot;
                                         inr failed_boom])))
        /\ new_Error "Prediction failed: boom" = getPrediction_error err).
Proof.
  exact (wait_poll_throws_only starting_handle
           (new_Error "Prediction failed: boom")
           (poll_options 10) None true
           (fresh_world [inr processing_snapshot; inr failed_boom])
           _ eq_refl eq_refl).
Defined.

(** ** [wait] in block mode, further cases *)

Lemma waitWithBlock_in_flight (prediction : PredictionResponse)
    (options : WaitOptions) (signal : option AbortSignal) (progress : bool)
    (w : World) :
  answers w = [] ->
  waitWithBlock prediction options signal progress w
  = (Pending, log (wait_request prediction options signal) w).
Proof.
  intros Hans. unfold waitWithBlock, try_catch, bind, request.
  rewrite Hans. reflexivity.
Qed.

(** X7.  Block mode returns what the blocking request answered whenever
    its status is not [failed], without checking that it is terminal: a
    snapshot still in progress (the server's timeout ran out) is reported
    to the callback and returned after this one request, with no polling
    afterwards. *)
Theorem wait_block_returns_response_as_is
    (prediction result : PredictionResponse) (rest : list Answer)
    (options : WaitOptions) (signal : option AbortSignal) (progress : bool)
    (w : World) :
  WaitOptions.type options = Some block \/ WaitOptions.type options = None ->
  answers w = inr result :: rest ->
  PredictionResponse.status result <> "failed" ->
  wait prediction options signal progress w
  = (Returned result,
     {| answers := rest;
        clock := S (clock w);
        trace := trace w
                 ++ (if progress then [EvProgress prediction] else [])
                 ++ [wait_request prediction options signal]
                 ++ (if progress then [EvProgress result] else []) |}).
Proof.
  intros Hmode Hans Hstatus.
  rewrite wait_block by exact Hmode.
  rewrite (waitWithBlock_returned prediction options signal progress result
             rest);
    [|rewrite answers_after_progress; exact Hans
     |apply String.eqb_neq; exact Hstatus].
  f_equal. unfold after_progress, after_request, log.
  destruct progress; cbn [answers clock trace];
    rewrite <- ?app_assoc, ?app_nil_r; reflexivity.
Qed.

Lemma wait_block_returns_response_as_is_witness :
  PredictionResponse.status processing_snapshot <> "failed"
  /\ is_terminal processing_snapshot = false
  /\ wait starting_handle WaitOptions.empty None true
       (fresh_world [inr processing_snapshot; inr succeeded_hello])
     = (Returned processing_snapshot,
        {| answers := [inr succeeded_hello];
           clock := 1;
           trace := [EvProgress starting_handle;
                     EvPostWait "/predictions/p1/wait" 60 false;
                     EvProgress processing_snapshot] |}).
Proof.
  assert (Hstatus : PredictionResponse.status processing_snapshot <> "failed")
    by discriminate.
  split; [exact Hstatus|]. split; [reflexivity|].
  rewrite (wait_block_returns_response_as_is starting_handle
             processing_snapshot [inr succeeded_hello] WaitOptions.empty
             None true
             (fresh_world [inr processing_snapshot; inr succeeded_hello])
             (or_intror eq_refl) eq_refl Hstatus).
  reflexivity.
Defined.

(** X8.  Block mode sends the blocking request in every case, also for a
    handle that is already terminal: on any world, what [wait] appends to
    the trace starts with the initial [progress] call (when a callback was
    supplied) followed by the request to the handle's wait endpoint, with
    the timeout [options.timeout || 60]. *)
Theorem wait_block_always_sends_request
    (prediction : PredictionResponse) (options : WaitOptions)
    (signal : option AbortSignal) (progress : bool) (w : World) :
  WaitOptions.type options = Some block \/ WaitOptions.type options = None ->
  exists t,
    trace (snd (wait prediction options signal progress w))
    = (trace w
       ++ (if progress then [EvProgress prediction] else [])
       ++ EvPostWait
            ("/predictions/" ++ PredictionResponse.id prediction ++ "/wait")
            (or_default (WaitOptions.timeout options) 60)
            (match signal with Some _ => true | None => false end)
          :: t)%list.
Proof.
  intros Hmode. rewrite wait_block by exact Hmode.
  fold (wait_request prediction options signal).
  set (w0 := after_progress progress prediction w).
  assert (Hblock : exists t,
    trace (snd (waitWithBlock prediction options signal progress w0))
    = (trace w0 ++ wait_request prediction options signal :: t)%list).
  { destruct (answers w0) as [|[err|result] rest] eqn:Hans.
    - rewrite waitWithBlock_in_flight by exact Hans. now exists [].
    - destruct (instanceofError err) eqn:Hinst;
        [destruct (String.eqb_spec (name err) "AbortError") as [Hname|Hname]|].
      + rewrite (waitWithBlock_aborted _ _ _ _ err rest) by assumption.
        now exists [].
      + rewrite (waitWithBlock_rejected _ _ _ _ err rest)
          by (try assumption; now right).
        destruct (extends_trace_waitWithPolling prediction options signal
                    progress
                    (after_request (wait_request prediction options signal)
                       rest w0)) as [t Ht].
        exists t. rewrite Ht. unfold after_request. cbn [trace].
        now rewrite <- app_assoc.
      + rewrite (waitWithBlock_rejected _ _ _ _ err rest)
          by (try assumption; now left).
        destruct (extends_trace_waitWithPolling prediction options signal
                    progress
                    (after_request (wait_request prediction options signal)
                       rest w0)) as [t Ht].
        exists t. rewrite Ht. unfold after_request. cbn [trace].
        now rewrite <- app_assoc.
    - destruct (String.eqb_spec (PredictionResponse.status result) "failed")
        as [Hfailed|Hfailed].
      + rewrite (waitWithBlock_failed _ _ _ _ result rest) by assumption.
        destruct (extends_trace_waitWithPolling prediction options signal
                    progress
                    (after_progress progress result
                       (after_request
                          (wait_request prediction options signal) rest w0)))
          as [t Ht].
        eexists. rewrite Ht, trace_after_progress.
        unfold after_request. cbn [trace].
        rewrite <- !app_assoc. reflexivity.
      + rewrite (waitWithBlock_returned _ _ _ _ result rest);
          [|assumption|apply String.eqb_neq; exact Hfailed].
        eexists. cbn [snd]. rewrite trace_after_progress.
        unfold after_request. cbn [trace].
        rewrite <- !app_assoc. reflexivity. }
  destruct Hblock as [t Ht]. exists t.
  rewrite Ht. unfold w0. rewrite trace_after_progress, <- app_assoc.
  reflexivity.
Qed.

Lemma wait_block_always_sends_request_witness :
  is_terminal succeeded_hello = true
  /\ exists t,
       trace (snd (wait succeeded_hello WaitOptions.empty None false
                     (fresh_world [])))
       = EvPostWait "/predictions/p1/wait" 60 false :: t.
Proof.
  split; [reflexivity|].
  exact (wait_block_always_sends_request succeeded_hello WaitOptions.empty
           None false (fresh_world []) (or_intror eq_refl)).
Defined.

(** X9.  Block mode: whatever the blocking request rejects with, when the
    token is aborted by the time it rejects and the handle is not
    terminal, [wait] throws the cancelled error and nothing follows the
    rejected request.  A rejection not named [AbortError], say one named
    [CanceledError], takes the fallback to polling, whose first check then
    sees the token. *)
Theorem wait_block_rejected_while_aborted
    (prediction : PredictionResponse) (err : Thrown) (rest : list Answer)
    (options : WaitOptions) (signal : option AbortSignal) (progress : bool)
    (w : World) :
  WaitOptions.type options = Some block \/ WaitOptions.type options = None ->
  answers w = inl err :: rest ->
  is_terminal prediction = false ->
  aborted_at signal (S (clock w)) = true ->
  wait prediction options signal progress w
  = (Threw prediction_cancelled,
     {| answers := rest;
        clock := S (clock w);
        trace := trace w
                 ++ (if progress then [EvProgress prediction] else [])
                 ++ [wait_request prediction options signal] |}).
Proof.
  intros Hmode Hans Hentry Hab.
  rewrite wait_block by exact Hmode.
  rewrite (waitWithBlock_rejected_while_aborted prediction options signal
             progress err rest);
    [|rewrite answers_after_progress; exact Hans
     |exact Hentry
     |rewrite clock_after_progress; exact Hab].
  f_equal. unfold after_progress, after_request, log.
  destruct progress; cbn [answers clock trace];
    rewrite <- ?app_assoc; reflexivity.
Qed.

Lemma wait_block_rejected_while_aborted_witness :
  let token : AbortSignal := fun t => Nat.leb 1 t in
  name canceled_error <> "AbortError"
  /\ wait starting_handle WaitOptions.empty (Some token) true
       (fresh_world [inl canceled_error; inr succeeded_hello])
     = (Threw prediction_cancelled,
        {| answers := [inr succeeded_hello];
           clock := 1;
           trace := [EvProgress starting_handle;
                     EvPostWait "/predictions/p1/wait" 60 true] |}).
Proof.
  intros token. split; [discriminate|].
  rewrite (wait_block_rejected_while_aborted starting_handle canceled_error
             [inr succeeded_hello] WaitOptions.empty (Some token) true
             (fresh_world [inl canceled_error; inr succeeded_hello])
             (or_intror eq_refl) eq_refl eq_refl eq_refl).
  reflexivity.
Defined.

(** X10.  Block mode on a handle whose status is already [succeeded]:
    when the blocking request rejects with anything that is not an
    [Error] named [AbortError], the fallback to polling returns the handle
    itself at once.  The rejection is never reported, the token is never
    read and no status fetch is made. *)
Theorem wait_block_rejected_on_succeeded_handle
    (prediction : PredictionResponse) (err : Thrown) (rest : list Answer)
    (options : WaitOptions) (signal : option AbortSignal) (progress : bool)
    (w : World) :
  WaitOptions.type options = Some block \/ WaitOptions.type options = None ->
  answers w = inl err :: rest ->
  instanceofError err = false \/ name err <> "AbortError" ->
  PredictionResponse.status prediction = "succeeded" ->
  wait prediction options signal progress w
  = (Returned prediction,
     {| answers := rest;
        clock := S (clock w);
        trace := trace w
                 ++ (if progress then [EvProgress prediction] else [])
                 ++ [wait_request prediction options signal] |}).
Proof.
  intros Hmode Hans Hother Hstatus.
  destruct (status_succeeded_terminal prediction Hstatus) as [Hterm Hfailed].
  rewrite wait_block by exact Hmode.
  rewrite (waitWithBlock_rejected prediction options signal progress err rest);
    [|rewrite answers_after_progress; exact Hans | exact Hother].
  rewrite waitWithPolling_terminal by exact Hterm.
  rewrite Hfailed. f_equal. unfold after_progress, after_request, log.
  destruct progress; cbn [answers clock trace];
    rewrite <- ?app_assoc; reflexivity.
Qed.

Lemma wait_block_rejected_on_succeeded_handle_witness :
  (instanceofError network_error = false
   \/ name network_error <> "AbortError")
  /\ wait succeeded_hello WaitOptions.empty (Some already_aborted) true
       (fresh_world [inl network_error])
     = (Returned succeeded_hello,
        {| answers := [];
           clock := 1;
           trace := [EvProgress succeeded_hello;
                     EvPostWait "/predictions/p1/wait" 60 true] |}).
Proof.
  assert (Hother : instanceofError network_error = false
                   \/ name network_error <> "AbortError")
    by (right; discriminate).
  split; [exact Hother|].
  rewrite (wait_block_rejected_on_succeeded_handle succeeded_hello
             network_error [] WaitOptions.empty (Some already_aborted) true
             (fresh_world [inl network_error])
             (or_intror eq_refl) eq_refl Hother eq_refl).
  reflexivity.
Defined.

(** ** What the client never does *)

Lemma Forall_false_filter {A : Type} (f : A -> bool) (l : list A) :
  Forall (fun x => f x = false) l -> filter f l = [].
Proof.
  induction 1 as [|x l Hx _ IH]; [reflexivity|].
  cbn [filter]. now rewrite Hx.
Qed.

Lemma no_progress_calls (t : list Event) :
  Forall (fun e => is_progress_call e = false) t -> progress_calls t = [].
Proof.
  induction 1 as [|e t He _ IH]; [reflexivity|].
  unfold progress_calls in *. cbn [flat_map]. rewrite IH.
  destruct e; try reflexivity. discriminate He.
Qed.

Section AppendsOnly.

Variable P : Event -> Prop.

Lemma appends_only_ret {A : Type} (a : A) : appends_only P (ret a).
Proof. intros w. exists []. split; [symmetry; apply app_nil_r | constructor]. Qed.

Lemma appends_only_throw {A : Type} (e : Thrown) : appends_only P (@throw A e).
Proof. intros w. exists []. split; [symmetry; apply app_nil_r | constructor]. Qed.

Lemma appends_only_pending {A : Type} :
  appends_only P (fun w => (@Pending A, w)).
Proof. intros w. exists []. split; [symmetry; apply app_nil_r | constructor]. Qed.

Lemma appends_only_read_aborted (signal : option AbortSignal) :
  appends_only P (read_aborted signal).
Proof. intros w. exists []. split; [symmetry; apply app_nil_r | constructor]. Qed.

Lemma appends_only_bind {A B : Type} (m : Async A) (k : A -> Async B) :
  appends_only P m ->
  (forall a, appends_only P (k a)) ->
  appends_only P (bind m k).
Proof.
  intros Hm Hk w. unfold bind.
  destruct (Hm w) as (t & Ht & HP).
  destruct (m w) as [[a| e |] w'] eqn:E; cbn [snd] in *.
  - destruct (Hk a w') as (t' & Ht' & HP').
    exists (t ++ t')%list. split.
    + now rewrite Ht', Ht, app_assoc.
    + apply Forall_app. now split.
  - now exists t.
  - now exists t.
Qed.

Lemma appends_only_try_catch {A : Type} (m : Async A)
    (handler : Thrown -> Async A) :
  appends_only P m ->
  (forall e, appends_only P (handler e)) ->
  appends_only P (try_catch m handler).
Proof.
  intros Hm Hh w. unfold try_catch.
  destruct (Hm w) as (t & Ht & HP).
  destruct (m w) as [[a| e |] w'] eqn:E; cbn [snd] in *.
  - now exists t.
  - destruct (Hh e w') as (t' & Ht' & HP').
    exists (t ++ t')%list. split.
    + now rewrite Ht', Ht, app_assoc.
    + apply Forall_app. now split.
  - now exists t.
Qed.

Lemma appends_only_request (e : Event) : P e -> appends_only P (request e).
Proof.
  intros He w. exists [e]. split; [|now repeat constructor].
  unfold request. destruct (answers w) as [|[err|data] rest]; reflexivity.
Qed.

Lemma appends_only_sleep (ms : Z) : P (EvSleep ms) -> appends_only P (sleep ms).
Proof. intros He w. exists [EvSleep ms]. split; [reflexivity | now repeat constructor]. Qed.

Lemma appends_only_call_progress (progress : bool) (p : PredictionResponse) :
  (progress = true -> P (EvProgress p)) ->
  appends_only P (call_progress progress p).
Proof.
  intros He w. unfold call_progress. destruct progress; cbn [snd].
  - exists [EvProgress p]. split; [reflexivity|]. repeat constructor. now apply He.
  - exists []. split; [symmetry; apply app_nil_r | constructor].
Qed.

Ltac appends_step :=
  first [ assumption
        | apply appends_only_ret
        | apply appends_only_throw
        | apply appends_only_pending
        | apply appends_only_read_aborted
        | apply appends_only_request; solve [auto]
        | apply appends_only_sleep; solve [auto]
        | apply appends_only_call_progress; solve [auto]
        | apply appends_only_bind; [|intros ?]
        | apply appends_only_try_catch; [|intros ?]
        | match goal with
          | |- appends_only _ (if ?b then _ else _) => destruct b
          | |- appends_only _ (match ?x with _ => _ end) => destruct x
          end ].

Lemma appends_only_createPrediction (input : PredictionInput) :
  P (EvPost "/predictions" input) ->
  appends_only P (createPrediction input).
Proof. intros Hpost. unfold createPrediction. repeat appends_step. Qed.

Hypothesis P_sleep : forall ms, P (EvSleep ms).
Hypothesis P_get : forall u, P (EvGet u).

Lemma appends_only_getPrediction (id : string) :
  appends_only P (getPrediction id).
Proof. unfold getPrediction. repeat appends_step. Qed.

Variable progress : bool.
Hypothesis P_progress : progress = true -> forall p, P (EvProgress p).

Lemma appends_only_poll_loop interval signal :
  forall fuel cur, appends_only P (poll_loop fuel interval signal progress cur).
Proof.
  induction fuel as [|fuel IH]; intros cur; rewrite poll_loop_eq.
  - repeat appends_step.
  - repeat first [ apply IH | apply appends_only_getPrediction | appends_step ].
Qed.

Lemma appends_only_waitWithPolling prediction options signal :
  appends_only P (waitWithPolling prediction options signal progress).
Proof.
  intros w. unfold waitWithPolling.
  apply (appends_only_bind
           (poll_loop (S (List.length (answers w))) _ signal progress
              prediction)).
  - apply appends_only_poll_loop.
  - intros cur. repeat appends_step.
Qed.

Hypothesis P_wait : forall u timeout passed, P (EvPostWait u timeout passed).

Lemma appends_only_waitWithBlock prediction options signal :
  appends_only P (waitWithBlock prediction options signal progress).
Proof.
  unfold waitWithBlock, wait_request.
  repeat first [ apply appends_only_waitWithPolling | appends_step ].
Qed.

Lemma appends_only_wait prediction options signal :
  appends_only P (wait prediction options signal progress).
Proof.
  unfold wait.
  repeat first [ apply appends_only_waitWithPolling
               | apply appends_only_waitWithBlock
               | appends_step ].
Qed.

End AppendsOnly.

(** X11.  Poll mode talks to the status endpoint only: on any world, every
    request [wait] sends in poll mode is a status fetch.  It never calls
    the blocking wait endpoint and never submits a prediction. *)
Theorem wait_poll_only_fetches_status
    (prediction : PredictionResponse) (options : WaitOptions)
    (signal : option AbortSignal) (progress : bool) (w : World) :
  WaitOptions.type options = Some poll ->
  exists t,
    trace (snd (wait prediction options signal progress w))
    = (trace w ++ t)%list
    /\ Forall (fun e => is_network_call e = true -> exists u, e = EvGet u) t.
Proof.
  intros Hmode.
  set (P := fun e => is_network_call e = true -> exists u, e = EvGet u).
  assert (Hpoll : appends_only P
                    (waitWithPolling prediction options signal progress)).
  { apply appends_only_waitWithPolling; unfold P.
    - intros ms H. discriminate H.
    - intros u _. now exists u.
    - intros _ p H. discriminate H. }
  rewrite wait_poll by exact Hmode.
  destruct (Hpoll (after_progress progress prediction w)) as (t & Ht & HP).
  exists ((if progress then [EvProgress prediction] else []) ++ t)%list.
  split.
  - rewrite Ht, trace_after_progress, <- app_assoc. reflexivity.
  - apply Forall_app. split; [|exact HP].
    destruct progress; repeat constructor. intros H. discriminate H.
Qed.

Lemma wait_poll_only_fetches_status_witness :
  exists t,
    trace (snd (wait starting_handle (poll_options 10) None true
                  (fresh_world [inr processing_snapshot; inl network_error])))
    = t
    /\ Forall (fun e => is_network_call e = true -> exists u, e = EvGet u) t.
Proof.
  destruct (wait_poll_only_fetches_status starting_handle (poll_options 10)
              None true
              (fresh_world [inr processing_snapshot; inl network_error])
              eq_refl) as (t & Ht & HP).
  exists t. split; [exact Ht | exact HP].
Defined.

(** [wait] never submits a prediction, in either mode. *)
Lemma wait_never_submits prediction options signal progress :
  appends_only (fun e => is_submission e = false)
    (wait prediction options signal progress).
Proof. apply appends_only_wait; reflexivity. Qed.

(** X12.  Once the identifier has parsed, [run] submits exactly one
    prediction, whatever happens afterwards (success, failure at any
    stage, or a request that never settles): the trace gains exactly one
    submission, the first thing [run] does, and its body carries the model
    string made of the parsed owner and name together with the input and
    the webhook settings of the options. *)
Theorem run_submits_exactly_once (identifier : string) (options : RunOptions)
    (owner name version : option string) (w : World) :
  parse_identifier identifier = inr (owner, name, version) ->
  exists t,
    trace (snd (run identifier options w))
    = (trace w
       ++ EvPost "/predictions"
            {| PredictionInput.model := model_string owner name;
               PredictionInput.input := RunOptions.input options;
               PredictionInput.webhook := RunOptions.webhook options;
               PredictionInput.webhook_events_filter :=
                 RunOptions.webhook_events_filter options |}
          :: t)%list
    /\ filter is_submission t = [].
Proof.
  intros Hparse. unfold run. rewrite Hparse.
  fold (prediction_input owner name options).
  unfold bind at 1.
  assert (Hcreate :
    trace (snd (createPrediction (prediction_input owner name options) w))
    = (trace w
       ++ [EvPost "/predictions" (prediction_input owner name options)])%list).
  { unfold createPrediction, try_catch, request.
    destruct (answers w) as [|[err|data] rest]; [reflexivity| |reflexivity].
    destruct (isAxiosError err); reflexivity. }
  destruct (createPrediction (prediction_input owner name options) w)
    as [[prediction| e |] w1]; cbn [snd] in *.
  - match goal with
    | |- context [bind ?m ?k w1] =>
        assert (Hrest : appends_only (fun e => is_submission e = false)
                          (bind m k))
    end.
    { apply appends_only_bind; [apply wait_never_submits|].
      intros result. destruct (PredictionResponse.output result);
        [apply appends_only_ret | apply appends_only_throw]. }
    destruct (Hrest w1) as (t & Ht & HP). exists t. split.
    + rewrite Ht, Hcreate, <- app_assoc. reflexivity.
    + apply Forall_false_filter. exact HP.
  - exists []. split; [exact Hcreate | reflexivity].
  - exists []. split; [exact Hcreate | reflexivity].
Qed.

Lemma run_submits_exactly_once_witness :
  exists t,
    trace (snd (run "owner/name:v1" (run_options None None true)
                  (fresh_world [inr starting_handle; inl network_error;
                                inr failed_boom])))
    = EvPost "/predictions"
        {| PredictionInput.model := "owner/name";
           PredictionInput.input := [("prompt", JString "x")];
           PredictionInput.webhook := None;
           PredictionInput.webhook_events_filter := None |} :: t
    /\ filter is_submission t = [].
Proof.
  destruct (run_submits_exactly_once "owner/name:v1"
              (run_options None None true)
              (Some "owner") (Some "name") (Some "v1")
              (fresh_world [inr starting_handle; inl network_error;
                            inr failed_boom])
              eq_refl) as (t & Ht & HP).
  exists t. split; [exact Ht | exact HP].
Defined.

(** ** [run] from submission to result *)

Lemma createPrediction_returned (input : PredictionInput)
    (data : PredictionResponse) (rest : list Answer) (w : World) :
  answers w = inr data :: rest ->
  createPrediction input w
  = (Returned data, after_request (EvPost "/predictions" input) rest w).
Proof.
  intros Hans. unfold createPrediction, try_catch, request.
  rewrite Hans. reflexivity.
Qed.

Lemma createPrediction_rejected (input : PredictionInput)
    (err : Thrown) (rest : list Answer) (w : World) :
  answers w = inl err :: rest ->
  createPrediction input w
  = (Threw (createPrediction_error err),
     after_request (EvPost "/predictions" input) rest w).
Proof.
  intros Hans. unfold createPrediction, try_catch, request.
  rewrite Hans. unfold createPrediction_error, throw.
  destruct (isAxiosError err); reflexivity.
Qed.

(** X13.  [run] in poll mode, end to end.  The identifier parses, the
    submission is answered with a handle that is not terminal, the status
    fetches with snapshots that are not terminal and then with one whose
    status is [succeeded] and whose output is a list, and the token is not
    aborted at the loop's checks.  Then [run] returns that list mapped
    element by element, having made one submission and one status fetch
    per snapshot, and leaves the rest of the script unconsumed. *)
Theorem run_poll_end_to_end (identifier : string) (options : RunOptions)
    (owner name version : option string)
    (created final : PredictionResponse)
    (fetched : list PredictionResponse) (outputs : list string)
    (later : list Answer) (w : World) :
  parse_identifier identifier = inr (owner, name, version) ->
  WaitOptions.type (wait_options options) = Some poll ->
  answers w = (inr created :: map inr (fetched ++ [final]) ++ later)%list ->
  is_terminal created = false ->
  Forall (fun p => is_terminal p = false) fetched ->
  PredictionResponse.status final = "succeeded" ->
  PredictionResponse.output final = Some outputs ->
  (forall k, k <= List.length fetched ->
             aborted_at (RunOptions.signal options) (S (clock w) + 2 * k)
             = false) ->
  run identifier options w
  = (Returned (map map_output outputs),
     {| answers := later;
        clock := S (clock w) + 2 * S (List.length fetched);
        trace := trace w
                 ++ [EvPost "/predictions"
                       (prediction_input owner name options)]
                 ++ (if RunOptions.progress options
                     then [EvProgress created] else [])
                 ++ poll_trace
                      (or_default
                         (WaitOptions.interval (wait_options options)) 500)
                      (RunOptions.progress options) created
                      (fetched ++ [final]) |}).
Proof.
  intros Hparse Hmode Hans Hcreated Hall Hfinal Houtput Hab.
  unfold run. rewrite Hparse. unfold bind at 1.
  rewrite (createPrediction_returned _ created
             (map inr (fetched ++ [final]) ++ later)%list) by exact Hans.
  unfold bind at 1.
  rewrite wait_poll by exact Hmode.
  rewrite (waitWithPolling_script (wait_options options)
             (RunOptions.signal options) (RunOptions.progress options)
             final later Hfinal fetched created); try assumption.
  - rewrite Houtput. unfold ret. f_equal.
    rewrite clock_after_progress, trace_after_progress.
    unfold after_request. cbn [clock trace].
    rewrite <- !app_assoc. reflexivity.
  - intros k Hk. rewrite clock_after_progress. unfold after_request.
    cbn [clock]. exact (Hab k Hk).
  - rewrite answers_after_progress. reflexivity.
Qed.

Lemma run_poll_end_to_end_witness :
  let final :=
    snapshot "p1" "succeeded" (Some ["hello"; "https://host/file.png"]) None in
  run "owner/name" (run_options (Some (poll_options 10)) None true)
    (fresh_world [inr starting_handle; inr processing_snapshot; inr final])
  = (Returned [inl "hello"; inr (new_FileOutput "https://host/file.png")],
     {| answers := [];
        clock := 5;
        trace := [EvPost "/predictions"
                    (prediction_input (Some "owner") (Some "name")
                       (run_options (Some (poll_options 10)) None true));
                  EvProgress starting_handle;
                  EvSleep 10; EvGet "/predictions/p1";
                  EvProgress processing_snapshot;
                  EvSleep 10; EvGet "/predictions/p1";
                  EvProgress final] |}).
Proof.
  intros final.
  rewrite (run_poll_end_to_end "owner/name"
             (run_options (Some (poll_options 10)) None true)
             (Some "owner") (Some "name") None starting_handle final
             [processing_snapshot] ["hello"; "https://host/file.png"] []
             (fresh_world [inr starting_handle; inr processing_snapshot;
                           inr final])
             eq_refl eq_refl eq_refl eq_refl
             (Forall_cons processing_snapshot eq_refl (Forall_nil _))
             eq_refl eq_refl (fun _ _ => eq_refl)).
  reflexivity.
Defined.

(** X14.  [run] in block mode, the default, end to end.  The identifier
    parses, the submission is answered with a handle and the blocking
    request with a snapshot whose status is not [failed].  Then [run] ends
    after these two requests: with that snapshot's outputs mapped element
    by element when it has an output, and with the no-output error when it
    has none, which is the case of a snapshot that is still in progress
    when the server's timeout runs out. *)
Theorem run_block_end_to_end (identifier : string) (options : RunOptions)
    (owner name version : option string)
    (created result : PredictionResponse) (later : list Answer) (w : World) :
  parse_identifier identifier = inr (owner, name, version) ->
  WaitOptions.type (wait_options options) = Some block
  \/ WaitOptions.type (wait_options options) = None ->
  answers w = inr created :: inr result :: later ->
  PredictionResponse.status result <> "failed" ->
  run identifier options w
  = (match PredictionResponse.output result with
     | Some outputs => Returned (map map_output outputs)
     | None => Threw no_output
     end,
     {| answers := later;
        clock := S (S (clock w));
        trace := trace w
                 ++ [EvPost "/predictions"
                       (prediction_input owner name options)]
                 ++ (if RunOptions.progress options
                     then [EvProgress created] else [])
                 ++ [wait_request created (wait_options options)
                       (RunOptions.signal options)]
                 ++ (if RunOptions.progress options
                     then [EvProgress result] else []) |}).
Proof.
  intros Hparse Hmode Hans Hstatus.
  unfold run. rewrite Hparse. unfold bind at 1.
  rewrite (createPrediction_returned _ created (inr result :: later))
    by exact Hans.
  unfold bind at 1.
  rewrite wait_block by exact Hmode.
  rewrite (waitWithBlock_returned created (wait_options options)
             (RunOptions.signal options) (RunOptions.progress options)
             result later);
    [|rewrite answers_after_progress; reflexivity
     |apply String.eqb_neq; exact Hstatus].
  assert (Hworld :
    after_progress (RunOptions.progress options) result
      (after_request
         (wait_request created (wait_options options)
            (RunOptions.signal options)) later
         (after_progress (RunOptions.progress options) created
            (after_request
               (EvPost "/predictions" (prediction_input owner name options))
               (inr result :: later) w)))
    = {| answers := later;
         clock := S (S (clock w));
         trace := trace w
                  ++ [EvPost "/predictions"
                        (prediction_input owner name options)]
                  ++ (if RunOptions.progress options
                      then [EvProgress created] else [])
                  ++ [wait_request created (wait_options options)
                        (RunOptions.signal options)]
                  ++ (if RunOptions.progress options
                      then [EvProgress result] else []) |}).
  { unfold after_progress, after_request, log.
    destruct (RunOptions.progress options); cbn [answers clock trace];
      rewrite <- ?app_assoc, ?app_nil_r; reflexivity. }
  rewrite Hworld.
  destruct (PredictionResponse.output result); reflexivity.
Qed.

Lemma run_block_end_to_end_witness :
  PredictionResponse.status processing_snapshot <> "failed"
  /\ run "owner/name" (run_options None None false)
       (fresh_world [inr starting_handle; inr processing_snapshot])
     = (Threw no_output,
        {| answers := [];
           clock := 2;
           trace := [EvPost "/predictions"
                       (prediction_input (Some "owner") (Some "name")
                          (run_options None None false));
                     EvPostWait "/predictions/p1/wait" 60 false] |}).
Proof.
  assert (Hstatus : PredictionResponse.status processing_snapshot <> "failed")
    by discriminate.
  split; [exact Hstatus|].
  rewrite (run_block_end_to_end "owner/name" (run_options None None false)
             (Some "owner") (Some "name") None starting_handle
             processing_snapshot []
             (fresh_world [inr starting_handle; inr processing_snapshot])
             eq_refl (or_intror eq_refl) eq_refl Hstatus).
  reflexivity.
Defined.

(** X15.  When the submission rejects, [run] ends there: it throws what
    [createPrediction] throws for the rejection, an axios error wrapped as
    "Failed to create prediction: ..." and any other value as it is, after
    this one request; no callback is called and nothing is waited for. *)
Theorem run_submission_rejected (identifier : string) (options : RunOptions)
    (owner name version : option string)
    (err : Thrown) (rest : list Answer) (w : World) :
  parse_identifier identifier = inr (owner, name, version) ->
  answers w = inl err :: rest ->
  run identifier options w
  = (Threw (createPrediction_error err),
     {| answers := rest;
        clock := S (clock w);
        trace := trace w
                 ++ [EvPost "/predictions"
                       (prediction_input owner name options)] |})
  /\ (isAxiosError err = true ->
      createPrediction_error err
      = new_Error ("Failed to create prediction: " ++ message err))
  /\ (isAxiosError err = false -> createPrediction_error err = err).
Proof.
  intros Hparse Hans. split; [|split].
  - unfold run. rewrite Hparse. unfold bind.
    rewrite (createPrediction_rejected _ err rest) by exact Hans.
    reflexivity.
  - intros Haxios. unfold createPrediction_error. now rewrite Haxios.
  - intros Haxios. unfold createPrediction_error. now rewrite Haxios.
Qed.

Lemma run_submission_rejected_witness :
  run "owner/name" (run_options None None true)
    (fresh_world [inl network_error; inr succeeded_hello])
  = (Threw (new_Error "Failed to create prediction: Network Error"),
     {| answers := [inr succeeded_hello];
        clock := 1;
        trace := [EvPost "/predictions"
                    (prediction_input (Some "owner") (Some "name")
                       (run_options None None true))] |}).
Proof.
  rewrite (proj1 (run_submission_rejected "owner/name"
                    (run_options None None true)
                    (Some "owner") (Some "name") None network_error
                    [inr succeeded_hello]
                    (fresh_world [inl network_error; inr succeeded_hello])
                    eq_refl eq_refl)).
  reflexivity.
Defined.

(** ** The shape of a parsed identifier *)

(** The first piece of a split has no separator, and the string is that
    piece, or that piece, a separator and a string that splits into the
    other pieces. *)
Lemma split_inv (sep : ascii) :
  forall (s piece : string) (pieces : list string),
    split sep s = piece :: pieces ->
    contains sep piece = false
    /\ ((pieces = [] /\ s = piece)
        \/ exists s', s = piece ++ String sep s' /\ split sep s' = pieces).
Proof.
  induction s as [|c s IH]; intros piece pieces Hsplit.
  - injection Hsplit as <- <-. split; [reflexivity | now left].
  - cbn [split] in Hsplit. destruct (Ascii.eqb c sep) eqn:Hc.
    + apply Ascii.eqb_eq in Hc. subst c. injection Hsplit as <- <-.
      split; [reflexivity|]. right. now exists s.
    + destruct (split sep s) as [|first others] eqn:E;
        [now apply split_not_nil in E|].
      injection Hsplit as <- <-.
      destruct (IH first others eq_refl) as [Hfree Hshape].
      split; [cbn [contains]; now rewrite Hc|].
      destruct Hshape as [[-> ->]|(s' & -> & Hrest)]; [now left|].
      right. now exists s'.
Qed.

(** X16.  Whenever the identifier of [run] parses, both the owner and the
    name are defined, the owner has no '/', the name has neither '/' nor
    ':', and the identifier is the submitted model string followed by
    nothing, or by something that starts with ':' or '/': the model string
    submitted is always a prefix of the identifier, cut at the first ':'
    or second '/'. *)
Theorem parse_identifier_shape (identifier : string)
    (o n v : option string) :
  parse_identifier identifier = inr (o, n, v) ->
  exists owner name rest,
    o = Some owner /\ n = Some name
    /\ contains "/" owner = false
    /\ contains "/" name = false
    /\ contains ":" name = false
    /\ model_string o n = owner ++ "/" ++ name
    /\ identifier = model_string o n ++ rest
    /\ (rest = ""
        \/ (exists more, rest = String ":" more)
        \/ (exists more, rest = String "/" more)).
Proof.
  unfold parse_identifier. intros Hparse.
  destruct (split "/" identifier) as [|owner [|model others]] eqn:Eid;
    cbn [nth_error] in Hparse; try discriminate Hparse.
  destruct (split ":" model) as [|name pieces] eqn:Emodel;
    [now apply split_not_nil in Emodel|].
  cbn [nth_error] in Hparse. injection Hparse as <- <- _.
  destruct (split_inv "/" _ _ _ Eid) as [Howner [[Hnil _]|(s' & Hid & Es')]];
    [discriminate Hnil|].
  destruct (split_inv "/" _ _ _ Es') as [Hmodel Hs'].
  destruct (split_inv ":" _ _ _ Emodel) as [Hcolon Hname].
  assert (Hslash : contains "/" name = false).
  { destruct Hname as [[_ ->]|(m' & -> & _)]; [exact Hmodel|].
    rewrite contains_append in Hmodel.
    now apply orb_false_iff in Hmodel as [Hn _]. }
  assert (Hshape : exists rest,
             s' = name ++ rest
             /\ (rest = ""
                 \/ (exists more, rest = String ":" more)
                 \/ (exists more, rest = String "/" more))).
  { destruct Hname as [[_ Heq]|(m' & Heq & _)];
      destruct Hs' as [[_ Hs']|(s'' & Hs' & _)]; subst s' model.
    - exists "". split; [now rewrite append_empty_r | now left].
    - exists (String "/" s''). split; [reflexivity|]. right. right. now eexists.
    - exists (String ":" m'). split; [reflexivity|]. right. left. now eexists.
    - exists (String ":" (m' ++ String "/" s'')).
      split; [now rewrite string_append_assoc|]. right. left. now eexists. }
  destruct Hshape as (rest & Hs'eq & Hrest).
  exists owner, name, rest. repeat split; try assumption.
  subst identifier s'. unfold model_string, template_of_optional.
  rewrite !string_append_assoc. reflexivity.
Qed.

Lemma parse_identifier_shape_witness :
  exists owner name rest,
    Some "black-forest-labs" = Some owner /\ Some "flux-schnell" = Some name
    /\ contains "/" owner = false
    /\ contains "/" name = false
    /\ contains ":" name = false
    /\ model_string (Some "black-forest-labs") (Some "flux-schnell")
       = owner ++ "/" ++ name
    /\ "black-forest-labs/flux-schnell:v2/extra"
       = model_string (Some "black-forest-labs") (Some "flux-schnell") ++ rest
    /\ (rest = ""
        \/ (exists more, rest = String ":" more)
        \/ (exists more, rest = String "/" more)).
Proof.
  exact (parse_identifier_shape "black-forest-labs/flux-schnell:v2/extra"
           (Some "black-forest-labs") (Some "flux-schnell") (Some "v2")
           eq_refl).
Defined.

(** X17.  Path segments after the name are dropped without complaint: for
    an owner without '/' and a name without '/' and ':', the identifier
    [owner/name/rest] parses to that owner and name whatever [rest] is,
    and with no version even when [rest] holds a ':'. *)
Theorem parse_identifier_extra_segments (owner name rest : string) :
  contains "/" owner = false ->
  contains "/" name = false ->
  contains ":" name = false ->
  parse_identifier (owner ++ "/" ++ name ++ "/" ++ rest)
  = inr (Some owner, Some name, None)
  /\ model_string (Some owner) (Some name) = owner ++ "/" ++ name.
Proof.
  intros Howner Hname Hcolon. split; [|reflexivity].
  unfold parse_identifier.
  rewrite split_app_no_sep by exact Howner.
  change ("/" ++ name ++ "/" ++ rest)
    with (String "/" (name ++ String "/" rest)).
  rewrite split_sep_first, (split_app_no_sep "/" _ name) by exact Hname.
  rewrite split_sep_first. cbn [nth_error].
  rewrite !append_empty_r.
  rewrite (split_no_sep ":" name) by exact Hcolon. reflexivity.
Qed.

Lemma parse_identifier_extra_segments_witness :
  parse_identifier "owner/name/extra:v1"
  = inr (Some "owner", Some "name", None).
Proof.
  exact (proj1 (parse_identifier_extra_segments "owner" "name" "extra:v1"
                  eq_refl eq_refl eq_refl)).
Defined.

(** ** [FileOutput]: one cache per reference *)

Lemma blob_calls_fresh (self : FileOutput) (net : FetchLog) (n : nat) :
  blob_ self = None ->
  blob_calls (S n) self net
  = (repeat (List.length net) (S n),
     {| url_ := url_ self; blob_ := Some (List.length net) |},
     (net ++ [url_ self])%list).
Proof.
  intros Hfresh. cbn [blob_calls repeat]. unfold blob, fetch_blob.
  rewrite Hfresh.
  rewrite (blob_calls_cached (List.length net)) by reflexivity.
  reflexivity.
Qed.

(** X18.  The promise is cached in the reference, not by URL.  Two
    references that have not fetched yet, called [n >= 1] and [m >= 1]
    times one after the other, start two byte-fetch operations, one each,
    also when both wrap the same URL (as the references [run] makes for an
    output list that repeats a URL do), and no promise handed out by one
    is handed out by the other. *)
Theorem blob_cache_is_per_reference (a b : FileOutput) (net : FetchLog)
    (n m : nat) :
  blob_ a = None ->
  blob_ b = None ->
  1 <= n ->
  1 <= m ->
  exists ps a' net1 qs b' net2,
    blob_calls n a net = (ps, a', net1)
    /\ blob_calls m b net1 = (qs, b', net2)
    /\ net2 = (net ++ [url_ a; url_ b])%list
    /\ forall p q, In p ps -> In q qs -> p <> q.
Proof.
  intros Ha Hb Hn Hm.
  destruct n as [|n]; [lia|]. destruct m as [|m]; [lia|].
  do 6 eexists. split; [apply blob_calls_fresh; exact Ha|].
  split; [apply blob_calls_fresh; exact Hb|].
  split; [now rewrite <- app_assoc|].
  intros p q Hp Hq.
  apply repeat_spec in Hp. apply repeat_spec in Hq. subst p q.
  rewrite length_app. cbn [List.length]. lia.
Qed.

Lemma blob_cache_is_per_reference_witness :
  let u := "https://host/file.png" in
  map map_output [u; u] = [inr (new_FileOutput u); inr (new_FileOutput u)]
  /\ exists ps a' net1 qs b' net2,
       blob_calls 2 (new_FileOutput u) [] = (ps, a', net1)
       /\ blob_calls 3 (new_FileOutput u) net1 = (qs, b', net2)
       /\ net2 = [u; u].
Proof.
  intros u. split; [reflexivity|].
  destruct (blob_cache_is_per_reference (new_FileOutput u) (new_FileOutput u)
              [] 2 3 eq_refl eq_refl
              (le_S _ _ (le_n 1)) (le_S _ _ (le_S _ _ (le_n 1))))
    as (ps & a' & net1 & qs & b' & net2 & Hfirst & Hsecond & Hnet & _).
  exists ps, a', net1, qs, b', net2.
  split; [exact Hfirst|]. split; [exact Hsecond | exact Hnet].
Defined.
